(** * grpcli core client: connection acquisition, header handling, teardown

    A shallow embedding of [core/client.go].  The [Client] methods are
    translated one by one into functions on an explicit machine state: the
    Go heap of [Resource] objects (they are shared through pointers), the
    client object itself, and the trace of calls made to the outside world.
    Answers of the outside world (the dialer, the credential loader, the
    clock, the health of a connection, the persistence of descriptor files
    and the remote invocation) are parameters of the development. *)

From Stdlib Require Import ZArith Lia Ascii String.
From stdpp Require Import base option list strings gmap fin_maps.

Local Open Scope string_scope.
Local Open Scope Z_scope.
Local Open Scope list_scope.

(** ** Go values *)

(** A Go slice, by contents.  [None] is the nil slice, [Some []] the empty
    non-nil slice: [reflect.DeepEqual] tells them apart.  Capacity and the
    sharing of backing arrays are not represented: a slice stands for the
    elements read through it when it is built, and what a later [append] on
    another slice of the same array writes into spare capacity is outside
    this model. *)
Definition slice (A : Type) : Type := option (list A).

Definition elems {A} (s : slice A) : list A := default [] s.

(** [append(s, t...)]: nothing is allocated when [t] has no element, so a
    nil [s] stays nil. *)
Definition append {A} (s t : slice A) : slice A :=
  match s, elems t with
  | None, [] => None
  | _, ts => Some (elems s ++ ts)
  end.

(** [time.Duration] is an [int64] count of nanoseconds. *)
Definition wrap64 (z : Z) : Z := (z + 2 ^ 63) mod 2 ^ 64 - 2 ^ 63.
Definition Second : Z := 1000000000.
Definition Minute : Z := 60 * Second.
Definition mulDuration (a b : Z) : Z := wrap64 (a * b).

(** [Proto] of the source: an uploaded proto file. *)
Record Proto : Type := mkProto {
  Name : string;
  Content : slice Byte.byte
}.

Global Instance byte_eq_dec : EqDecision Byte.byte := Byte.byte_eq_dec.

Global Instance Proto_eq_dec : EqDecision Proto.
Proof. solve_decision. Defined.

(** [reflect.DeepEqual] on two [[]Proto]: both nil or both non-nil, same
    length, and the elements deeply equal in order. *)
Definition DeepEqual (a b : slice Proto) : bool := bool_decide (a = b).

(** [context.Context], as far as this file builds contexts. *)
Inductive Context : Type :=
| Background
| WithTimeout (parent : Context) (d : Z).

(** ** strconv.Atoi

    An optional sign, then one or more decimal digits, the value within
    [int] (64 bits). *)
Definition digit_of (c : ascii) : option Z :=
  let n := Z.of_N (Ascii.N_of_ascii c) in
  if (48 <=? n) && (n <=? 57) then Some (n - 48) else None.

Fixpoint digits_acc (s : string) (acc : Z) : option Z :=
  match s with
  | EmptyString => Some acc
  | String c rest =>
      match digit_of c with
      | Some d => digits_acc rest (10 * acc + d)
      | None => None
      end
  end.

Definition unsigned_digits (s : string) : option Z :=
  match s with
  | EmptyString => None
  | _ => digits_acc s 0
  end.

Definition in_int64 (z : Z) : bool := (- 2 ^ 63 <=? z) && (z <? 2 ^ 63).

Definition Atoi (s : string) : option Z :=
  let signed :=
    match s with
    | String "-"%char rest => Z.opp <$> unsigned_digits rest
    | String "+"%char rest => unsigned_digits rest
    | _ => unsigned_digits s
    end in
  match signed with
  | Some z => if in_int64 z then Some z else None
  | None => None
  end.

(** The decimal numeral with the digits [ds], most significant first, and
    the number it denotes. *)
Definition digit_char (d : Z) : ascii := ascii_of_N (Z.to_N (48 + d)).

Fixpoint decimal (ds : list Z) : string :=
  match ds with
  | [] => EmptyString
  | d :: ds => String (digit_char d) (decimal ds)
  end.

Definition decimal_value (ds : list Z) : Z :=
  fold_left (λ acc d, 10 * acc + d) ds 0.

Definition digits (ds : list Z) : Prop :=
  ds ≠ [] ∧ Forall (λ d, 0 ≤ d ≤ 9) ds.

(** [x] is what a variable that holds [dflt] holds after
    [if val, err := strconv.Atoi(v); err == nil { x = val }], for the texts
    [v] of these shapes: the empty text and a text that starts with a
    character that is neither a sign nor a digit leave the default; a
    decimal numeral, with or without a minus sign, gives its value when that
    fits 64 bits, and leaves the default when it does not. *)
Definition parsed_or_default (v : string) (dflt x : Z) : Prop :=
  (v = "" → x = dflt) ∧
  (∀ c rest, v = String c rest → digit_of c = None →
             c ≠ "-"%char → c ≠ "+"%char → x = dflt) ∧
  (∀ ds, digits ds → v = decimal ds →
         x = if decimal_value ds <? 2 ^ 63 then decimal_value ds else dflt) ∧
  (∀ ds, digits ds → v = String "-" (decimal ds) →
         x = if decimal_value ds <=? 2 ^ 63 then - decimal_value ds else dflt).

(** ** What the source takes from other packages

    The types of the transport layer, which this file only passes around. *)
Class External : Type := {
  Conn : Type;    (* *grpc.ClientConn: a live connection handle *)
  Creds : Type;   (* credentials.TransportCredentials *)
  Err : Type;     (* error values *)
  MD : Type;      (* metadata.MD *)
  F64 : Type;     (* float64 *)
  f64_zero : F64
}.

(** A [*Resource] is an address in the heap of resources. *)
Definition ptr : Type := positive.

Inductive DialOption : Type :=
| WithKeepaliveParams (time timeout : Z)
| WithAuthority (authority : string).

(** Calls that leave the process, in the order they are made. *)
Inductive Event `{External} : Type :=
| ELog (msg : string)
| ECredentials (insecure : bool) (cacert cert key : string)
| EDial (ctx : Context) (network target : string)
        (creds : option Creds) (opts : list DialOption)
| EClose (r : ptr)
| EPersist (r : ptr) (protos : slice Proto)
| EInvoke (r : ptr) (ctx : Context) (method payload : string)
| EStartGC (interval : Z).

Module Resource.
(** [Resource] is declared outside [client.go]: these are the fields that
    [client.go] reads or writes, at the types it uses them with. *)
Record t `{External} : Type := mk {
  clientConn : option Conn;
  md : option MD;
  headers : slice string;
  protos : slice Proto
}.

(** [new(Resource)] *)
Definition zero `{External} : t :=
  {| clientConn := None; md := None; headers := None; protos := None |}.

Definition set_clientConn `{External} (c : option Conn) (r : t) : t :=
  {| clientConn := c; md := md r; headers := headers r; protos := protos r |}.
Definition set_md `{External} (m : option MD) (r : t) : t :=
  {| clientConn := clientConn r; md := m; headers := headers r;
     protos := protos r |}.
Definition set_headers `{External} (h : slice string) (r : t) : t :=
  {| clientConn := clientConn r; md := md r; headers := h;
     protos := protos r |}.
Definition set_protos `{External} (p : slice Proto) (r : t) : t :=
  {| clientConn := clientConn r; md := md r; headers := headers r;
     protos := p |}.
End Resource.

Module ConnStore.
(** Modelled from the spec: the [ConnStore] type is declared outside
    [client.go].  Section 3 of the specification gives a cache entry an
    owning reference to a Resource and an expiry time; an entry inserted
    with a non-positive lifetime never expires. *)
Record connection : Type := mkConnection {
  resource : ptr;
  expiresAt : option Z
}.

(** Modelled from the spec: the store is the map from endpoint to entry,
    and whether [StartGC] has launched the background sweep (with which
    interval). *)
Record t : Type := mk {
  conn : gmap string connection;
  gc : option Z
}.

(** Modelled from the spec: [NewConnectionStore] is declared outside
    [client.go]; a new store is empty and has no sweep running. *)
Definition NewConnectionStore : t := {| conn := ∅; gc := None |}.

(** Modelled from the spec: [getConnection] is declared outside
    [client.go]; 4.1 Lookup is a read that changes nothing. *)
Definition getConnection (host : string) (c : t) : option ptr :=
  resource <$> conn c !! host.

(** Modelled from the spec: [getAllConn] is declared outside [client.go];
    4.1 Snapshot. *)
Definition getAllConn (c : t) : gmap string connection := conn c.

(** Modelled from the spec: 4.1 Insert, the expiry of an entry inserted at
    [now] with lifetime [ttl]; with a non-positive lifetime it never
    expires. *)
Definition expiry (now ttl : Z) : option Z :=
  if 0 <? ttl then Some (now + ttl) else None.

(** Modelled from the spec: [addConnection] is declared outside
    [client.go]; 4.1 Insert sets the expiry to now plus the lifetime. *)
Definition addConnection (host : string) (r : ptr) (ttl now : Z) (c : t) : t :=
  {| conn := <[host := mkConnection r (expiry now ttl)]> (conn c);
     gc := gc c |}.

(** Modelled from the spec: [extend] is declared outside [client.go];
    4.1 Extend resets the expiry of an existing entry, and does nothing
    for an endpoint that is not cached. *)
Definition extend (host : string) (ttl now : Z) (c : t) : t :=
  {| conn := alter (λ e, mkConnection (resource e) (expiry now ttl)) host (conn c);
     gc := gc c |}.

(** Modelled from the spec: 4.1 Delete, the removal of the map entry
    ([ConnStore_delete] below also closes the handle). *)
Definition remove (host : string) (c : t) : t :=
  {| conn := base.delete host (conn c); gc := gc c |}.

(** Modelled from the spec: 4.1 StartSweep removes the entries whose
    expiry is not after the current time. *)
Definition expired (now : Z) (e : connection) : bool :=
  match expiresAt e with
  | Some t => t <=? now
  | None => false
  end.
End ConnStore.

Module Client.
(** [Client] of the source, field by field. *)
Record t `{External} : Type := mk {
  KeepAlive : F64;
  activeConn : ConnStore.t;
  maxLifeConn : Z;
  headers : slice string;
  reflectHeaders : slice string;
  authority : string;
  insecure : bool;
  cacert : string;
  cert : string;
  key : string;
  serverName : string;
  isUnixSocket : option (list Event → bool)
}.

Definition set_activeConn `{External} (c : ConnStore.t) (g : t) : t :=
  {| KeepAlive := KeepAlive g; activeConn := c; maxLifeConn := maxLifeConn g;
     headers := headers g; reflectHeaders := reflectHeaders g;
     authority := authority g; insecure := insecure g; cacert := cacert g;
     cert := cert g; key := key g; serverName := serverName g;
     isUnixSocket := isUnixSocket g |}.
Definition set_maxLifeConn `{External} (d : Z) (g : t) : t :=
  {| KeepAlive := KeepAlive g; activeConn := activeConn g; maxLifeConn := d;
     headers := headers g; reflectHeaders := reflectHeaders g;
     authority := authority g; insecure := insecure g; cacert := cacert g;
     cert := cert g; key := key g; serverName := serverName g;
     isUnixSocket := isUnixSocket g |}.
Definition set_headers `{External} (h : slice string) (g : t) : t :=
  {| KeepAlive := KeepAlive g; activeConn := activeConn g;
     maxLifeConn := maxLifeConn g;
     headers := h; reflectHeaders := reflectHeaders g;
     authority := authority g; insecure := insecure g; cacert := cacert g;
     cert := cert g; key := key g; serverName := serverName g;
     isUnixSocket := isUnixSocket g |}.

(** The TLS material of the client, replaced wholesale. *)
Definition set_tls `{External} (i : bool) (ca ce k sn : string) (g : t) : t :=
  {| KeepAlive := KeepAlive g; activeConn := activeConn g;
     maxLifeConn := maxLifeConn g;
     headers := headers g; reflectHeaders := reflectHeaders g;
     authority := authority g; insecure := i; cacert := ca;
     cert := ce; key := k; serverName := sn;
     isUnixSocket := isUnixSocket g |}.

(** [&Client{activeConn: c}]: every other field has its zero value. *)
Definition zero `{External} (c : ConnStore.t) : t :=
  {| KeepAlive := f64_zero; activeConn := c; maxLifeConn := 0;
     headers := None; reflectHeaders := None; authority := "";
     insecure := false; cacert := ""; cert := ""; key := "";
     serverName := ""; isUnixSocket := None |}.
End Client.

(** ** Machine state *)
Record State `{External} : Type := mkState {
  heap : gmap ptr Resource.t;
  client : Client.t;
  trace : list Event
}.

Definition set_heap `{External} (h : gmap ptr Resource.t) (s : State) : State :=
  {| heap := h; client := client s; trace := trace s |}.
Definition set_client `{External} (g : Client.t) (s : State) : State :=
  {| heap := heap s; client := g; trace := trace s |}.
Definition emit `{External} (e : Event) (s : State) : State :=
  {| heap := heap s; client := client s; trace := trace s ++ [e] |}.
Definition set_store `{External} (c : ConnStore.t) (s : State) : State :=
  set_client (Client.set_activeConn c (client s)) s.
Definition store `{External} (s : State) : ConnStore.t :=
  Client.activeConn (client s).

(** The answers of the outside world.  Each one may depend on everything
    that happened before (the trace). *)
Record World `{External} : Type := mkWorld {
  (* grpcurl.MetadataFromHeaders *)
  MetadataFromHeaders : slice string → MD;
  (* grpcurl.ClientTransportCredentials *)
  ClientTransportCredentials :
    list Event → bool → string → string → string → Err + Creds;
  (* creds.OverrideServerName: the error, or the credentials as changed *)
  OverrideServerName : Creds → string → Err + Creds;
  (* grpcurl.BlockingDial *)
  BlockingDial :
    list Event → Context → string → string → option Creds →
    list DialOption → Err + Conn;
  (* time.Now, in nanoseconds *)
  now : list Event → Z;
  (* g.KeepAlive > 0 *)
  f64_positive : F64 → bool;
  (* time.Duration(g.KeepAlive * float64(time.Second)) *)
  f64_seconds : F64 → Z;
  (* Resource.isValid, declared outside client.go *)
  isValid : list Event → ptr → Resource.t → bool;
  (* whether Resource.AddProtos manages to write the files: the error *)
  persist : list Event → ptr → Resource.t → slice Proto → option Err;
  (* Resource.Invoke, declared outside client.go *)
  ResourceInvoke :
    list Event → ptr → Resource.t → Context → string → string →
    string * Z * option Err
}.

(** ** Kinds of events *)
Definition is_dial `{External} (e : Event) : bool :=
  match e with EDial _ _ _ _ _ => true | _ => false end.
Definition is_persist `{External} (e : Event) : bool :=
  match e with EPersist _ _ => true | _ => false end.
Definition is_invoke `{External} (e : Event) : bool :=
  match e with EInvoke _ _ _ _ => true | _ => false end.
Definition is_startGC `{External} (e : Event) : bool :=
  match e with EStartGC _ => true | _ => false end.
Definition is_credentials `{External} (e : Event) : bool :=
  match e with ECredentials _ _ _ _ => true | _ => false end.
Definition is_close `{External} (e : Event) : bool :=
  match e with EClose _ => true | _ => false end.

(** An event that involves no transport credentials: not a call of the
    credential loader, and not a dial with credentials. *)
Definition no_tls `{External} (e : Event) : bool :=
  match e with
  | ECredentials _ _ _ _ => false
  | EDial _ _ _ (Some _) _ => false
  | _ => true
  end.

(** The events an acquisition can cause, with or without TLS. *)
Definition acquisition_event `{External} (plainText : bool) (e : Event) : Prop :=
  match e with
  | EClose _ => True
  | ECredentials _ _ _ _ => plainText = false
  | EDial _ _ _ creds _ => plainText = true → creds = None
  | _ => False
  end.

(** [s'] has the trace of [s] followed by events that satisfy [P]. *)
Definition extends `{External} (P : Event → Prop) (s s' : State) : Prop :=
  ∃ evs, trace s' = trace s ++ evs ∧ Forall P evs.

(** How often an event of a kind occurs in a trace. *)
Definition count `{External} (p : Event → bool) (tr : list Event) : nat :=
  length (filter (λ e, p e = true) tr).


(** ** The methods *)
Section Methods.
Context `{External} (w : World).

(** Modelled from the spec: [ConnStore.delete] is declared outside
    [client.go]; 4.1 Delete removes the entry if present and closes its
    connection handle, and does nothing if it is absent. *)
Definition ConnStore_delete (host : string) (s : State) : State :=
  match ConnStore.conn (store s) !! host with
  | Some e =>
      emit (EClose (ConnStore.resource e))
           (set_store (ConnStore.remove host (store s)) s)
  | None => s
  end.

(** Deleting a list of keys one after the other. *)
Definition delete_keys (ks : list string) (s : State) : State :=
  foldl (λ s' k, ConnStore_delete k s') s ks.

(** Modelled from the spec: [ConnStore.StartGC] is declared outside
    [client.go]; 4.1 StartSweep launches the background sweep. *)
Definition ConnStore_StartGC (interval : Z) (s : State) : State :=
  emit (EStartGC interval)
       (set_store {| ConnStore.conn := ConnStore.conn (store s);
                     ConnStore.gc := Some interval |} s).

(** Modelled from the spec: one run of the background sweep, which exists
    only once [StartGC] has launched it: every entry whose expiry is not
    after the current time is removed and closed. *)
Definition sweep (s : State) : State :=
  match ConnStore.gc (store s) with
  | None => s
  | Some _ =>
      let t := now w (trace s) in
      delete_keys
        (map_to_list (filter (λ kv, ConnStore.expired t kv.2 = true)
                             (ConnStore.conn (store s)))).*1 s
  end.

(** [if val, err := strconv.Atoi(os.Getenv(name)); err == nil { x = val }]
    on a variable [x] that holds [dflt]. *)
Definition envInt (getenv : string → string) (name : string) (dflt : Z) : Z :=
  match Atoi (getenv name) with
  | Some val => val
  | None => dflt
  end.

(** [NewClient]; [getenv] is [os.Getenv]. *)
Definition NewClient (getenv : string → string) : State :=
  let maxLife := envInt getenv "MAX_LIFE_CONN" 10 in
  let tick := envInt getenv "TICK_CLOSE_CONN" 3 in
  let c := ConnStore.NewConnectionStore in
  let s := {| heap := ∅; client := Client.zero c; trace := [] |} in
  if (0 <? maxLife) && (0 <? tick) then
    ConnStore_StartGC (mulDuration tick Second)
      (set_client (Client.set_maxLifeConn (mulDuration maxLife Minute)
                     (client s)) s)
  else s.

Definition SetHeaders (headers : slice string) (s : State) : State :=
  set_client (Client.set_headers headers (client s)) s.

Definition AddHeaders (headers : slice string) (s : State) : State :=
  set_client
    (Client.set_headers (append (Client.headers (client s)) headers)
       (client s)) s.

Definition ClearHeaders (headers : slice string) (s : State) : State :=
  set_client (Client.set_headers (Some []) (client s)) s.

(** [CloseActiveConns]: the returned error is the second component.  A Go
    map is ranged over in no particular order; the keys are taken here in
    the order of [map_to_list]. *)
Definition CloseActiveConns (host : string) (s : State) : State * option Err :=
  if bool_decide (host = "all") then
    (delete_keys (map_to_list (ConnStore.getAllConn (store s))).*1 s, None)
  else (ConnStore_delete host s, None).

Definition GetActiveConns (ctx : Context) (s : State) : list string :=
  (map_to_list (ConnStore.getAllConn (store s))).*1.

Definition Extend (host : string) (s : State) : State :=
  set_store
    (ConnStore.extend host (Client.maxLifeConn (client s)) (now w (trace s))
       (store s)) s.

(** The dial options [dial] collects: keep-alive, then authority. *)
Definition dialOptions (g : Client.t) : list DialOption :=
  let opts : list DialOption := [] in
  let opts :=
    if f64_positive w (Client.KeepAlive g) then
      let timeout := f64_seconds w (Client.KeepAlive g) in
      opts ++ [WithKeepaliveParams timeout timeout]
    else opts in
  if bool_decide (Client.authority g ≠ "") then
    opts ++ [WithAuthority (Client.authority g)]
  else opts.

(** The network [dial] selects. *)
Definition dialNetwork (g : Client.t) (tr : list Event) : string :=
  match Client.isUnixSocket g with
  | Some f => if f tr then "unix" else "tcp"
  | None => "tcp"
  end.

Definition dialTime : Z := 10 * Second.

(** [dial]: the connection or the error, and the trace extended by the
    calls made. *)
Definition dial (g : Client.t) (tr : list Event) (ctx : Context)
    (target : string) (plainText : bool) : (Err + Conn) * list Event :=
  let ctx := WithTimeout ctx dialTime in
  let opts := dialOptions g in
  let connect (creds : option Creds) (tr : list Event) :=
    let network := dialNetwork g tr in
    (BlockingDial w tr ctx network target creds opts,
     tr ++ [EDial ctx network target creds opts]) in
  if negb plainText then
    let tr1 :=
      tr ++ [ECredentials (Client.insecure g) (Client.cacert g)
               (Client.cert g) (Client.key g)] in
    match ClientTransportCredentials w tr (Client.insecure g)
            (Client.cacert g) (Client.cert g) (Client.key g) with
    | inl err => (inl err, tr1)
    | inr creds =>
        if bool_decide (Client.serverName g ≠ "") then
          match OverrideServerName w creds (Client.serverName g) with
          | inl err => (inl err, tr1)
          | inr creds' => connect (Some creds') tr1
          end
        else connect (Some creds) tr1
    end
  else connect None tr.

(** The tail of [GetResource], from [var err error] on. *)
Definition openResource (ctx : Context) (target : string) (plainText : bool)
    (s : State) : (option ptr * option Err) * State :=
  let g := client s in
  let r : ptr := fresh (dom (heap s)) in
  let s := set_heap (<[r := Resource.zero]> (heap s)) s in
  let h := append (Client.headers g) (Client.reflectHeaders g) in
  let res := Resource.set_md (Some (MetadataFromHeaders w h)) Resource.zero in
  let s := set_heap (<[r := res]> (heap s)) s in
  let '(cc, tr) := dial g (trace s) ctx target plainText in
  let s := {| heap := heap s; client := client s; trace := tr |} in
  match cc with
  | inl err => ((None, Some err), s)
  | inr cc =>
      let res := Resource.set_headers h (Resource.set_clientConn (Some cc) res) in
      let s := set_heap (<[r := res]> (heap s)) s in
      let s :=
        set_store
          (ConnStore.addConnection target r (Client.maxLifeConn g)
             (now w (trace s)) (store s)) s in
      ((Some r, None), s)
  end.

(** [GetResource].  [None] is the run-time panic of dereferencing a pointer
    that names no Resource. *)
Definition GetResource (ctx : Context) (target : string)
    (plainText isRestartConn : bool) (s : State)
    : option ((option ptr * option Err) * State) :=
  match ConnStore.getConnection target (store s) with
  | Some r =>
      if negb isRestartConn then
        match heap s !! r with
        | None => None
        | Some res =>
            if isValid w (trace s) r res then
              let h := append (Client.headers (client s))
                              (Client.reflectHeaders (client s)) in
              Some ((Some r, None),
                    set_heap (<[r := Resource.set_headers h res]> (heap s)) s)
            else
              Some (openResource ctx target plainText
                      (CloseActiveConns target s).1)
        end
      else
        Some (openResource ctx target plainText (CloseActiveConns target s).1)
  | None => Some (openResource ctx target plainText s)
  end.

(** Modelled from the spec: [Resource.AddProtos] is declared outside
    [client.go]; 4.2 SetDescriptors compares the new set with the one held
    and does nothing if they are equal, otherwise persists the new set and
    records it; when persisting fails the error is returned and the
    recorded set stays as it was (section 7). *)
Definition Resource_AddProtos (r : ptr) (protos : slice Proto) (s : State)
    : option (option Err * State) :=
  match heap s !! r with
  | None => None
  | Some res =>
      if DeepEqual (Resource.protos res) protos then Some (None, s)
      else
        let s' := emit (EPersist r protos) s in
        match persist w (trace s) r res protos with
        | Some err => Some (Some err, s')
        | None =>
            Some (None,
                  set_heap (<[r := Resource.set_protos protos res]> (heap s')) s')
        end
  end.

(** Modelled from the spec: [Resource.Invoke] is declared outside
    [client.go]; 4.2 Invoke delegates the call to the transport layer. *)
Definition Resource_Invoke (r : ptr) (ctx : Context) (method payload : string)
    (s : State) : option ((string * Z * option Err) * State) :=
  match heap s !! r with
  | None => None
  | Some res =>
      Some (ResourceInvoke w (trace s) r res ctx method payload,
            emit (EInvoke r ctx method payload) s)
  end.

(** [GetResourceWithProto], whatever the method [r.AddProtos] of the
    Resource does: [AddProtos] is that method. *)
Definition GetResourceWithProto_with
    (AddProtos : ptr → slice Proto → State → option (option Err * State))
    (ctx : Context) (target : string)
    (plainText isRestartConn : bool) (protos : slice Proto) (s : State)
    : option ((option ptr * option Err) * State) :=
  match GetResource ctx target plainText isRestartConn s with
  | None => None
  | Some ((_, Some err), s1) => Some ((None, Some err), s1)
  | Some ((None, None), _) => None
  | Some ((Some r, None), s1) =>
      match heap s1 !! r with
      | None => None
      | Some res =>
          if DeepEqual (Resource.protos res) protos then
            Some ((Some r, None), s1)
          else
            match AddProtos r protos s1 with
            | None => None
            | Some (err, s2) => Some ((Some r, err), s2)
            end
      end
  end.

(** [GetResourceWithProto] *)
Definition GetResourceWithProto (ctx : Context) (target : string)
    (plainText isRestartConn : bool) (protos : slice Proto) (s : State)
    : option ((option ptr * option Err) * State) :=
  GetResourceWithProto_with Resource_AddProtos
    ctx target plainText isRestartConn protos s.

(** The line [Invoke] logs. *)
Definition invoke_log (target service method data : string) : string :=
  "invoke -> target: " +:+ target +:+ ", service: " +:+ service +:+
  ", method: " +:+ method +:+ ", data: " +:+ data.

(** [Client.Invoke]: reply, cost and error. *)
Definition Invoke (ctx : Context) (target service method data : string)
    (s : State) : option ((string * Z * option Err) * State) :=
  let s := emit (ELog (invoke_log target service method data)) s in
  match GetResource ctx target true false s with
  | None => None
  | Some ((_, Some err), s1) => Some (("", 0, Some err), s1)
  | Some ((None, None), _) => None
  | Some ((Some rs, None), s1) =>
      Resource_Invoke rs ctx (service +:+ "." +:+ method) data s1
  end.

(** ** Predicates of the statements *)

(** Every cached entry points to a Resource of the heap. *)
Definition wf (s : State) : Prop :=
  ∀ k e, ConnStore.conn (store s) !! k = Some e →
         is_Some (heap s !! ConnStore.resource e).

(** The condition under which [GetResource] hands out the cached Resource:
    there is one for the endpoint, no restart is asked for, and it reports
    valid. *)
Definition reusable (target : string) (isRestartConn : bool) (s : State) : bool :=
  match ConnStore.getConnection target (store s) with
  | Some r =>
      negb isRestartConn &&
      match heap s !! r with
      | Some res => isValid w (trace s) r res
      | None => false
      end
  | None => false
  end.

(** The state from which [GetResource] dials when it does not reuse: the
    entry of the endpoint, if there is one, has been closed. *)
Definition beforeDial (target : string) (s : State) : State :=
  match ConnStore.getConnection target (store s) with
  | Some _ => (CloseActiveConns target s).1
  | None => s
  end.

(** The headers an acquisition writes: the caller's, then the reflection
    ones. *)
Definition combinedHeaders (g : Client.t) : slice string :=
  append (Client.headers g) (Client.reflectHeaders g).

(** The reading of "two successive calls with an identical descriptor set
    against the same cached Resource trigger persistence exactly once":
    whenever two such calls in a row return the same Resource without
    error, the trace has gained exactly one persistence. *)
Definition persists_exactly_once : Prop :=
  ∀ (ctx : Context) (target : string) (plainText isRestartConn : bool)
    (protos : slice Proto) (s s2 s3 : State) (r : ptr),
    GetResourceWithProto ctx target plainText isRestartConn protos s =
      Some ((Some r, None), s2) →
    GetResourceWithProto ctx target plainText false protos s2 =
      Some ((Some r, None), s3) →
    count is_persist (trace s3) = S (count is_persist (trace s)).

(** The same state with other TLS material in the client. *)
Definition with_tls (i : bool) (ca ce k sn : string) (s : State) : State :=
  set_client (Client.set_tls i ca ce k sn (client s)) s.

(** ** The client over time

    What can happen to a client: a call of one of its methods, or the timer
    of the background sweep firing. *)
Inductive Call : Type :=
| CallSetHeaders (headers : slice string)
| CallAddHeaders (headers : slice string)
| CallClearHeaders (headers : slice string)
| CallInvoke (ctx : Context) (target service method data : string)
| CallGetResource (ctx : Context) (target : string)
    (plainText isRestartConn : bool)
| CallGetResourceWithProto (ctx : Context) (target : string)
    (plainText isRestartConn : bool) (protos : slice Proto)
| CallGetActiveConns (ctx : Context)
| CallCloseActiveConns (host : string)
| CallExtend (host : string)
| Tick.

Definition is_tick (c : Call) : bool :=
  match c with Tick => true | _ => false end.

(** The calls that run [CloseActiveConns], themselves or through
    [GetResource]. *)
Definition may_close (c : Call) : bool :=
  match c with
  | CallInvoke _ _ _ _ _ => true
  | CallGetResource _ _ _ _ => true
  | CallGetResourceWithProto _ _ _ _ _ => true
  | CallCloseActiveConns _ => true
  | _ => false
  end.

(** The calls in which [CloseActiveConns] can run for the endpoint [k]:
    [CloseActiveConns] itself and, through [GetResource], the acquisitions,
    when they are called for [k] or for ["all"]. *)
Definition closes_endpoint (c : Call) (k : string) : bool :=
  match c with
  | CallInvoke _ target _ _ _ => bool_decide (target = k ∨ target = "all")
  | CallGetResource _ target _ _ => bool_decide (target = k ∨ target = "all")
  | CallGetResourceWithProto _ target _ _ _ =>
      bool_decide (target = k ∨ target = "all")
  | CallCloseActiveConns host => bool_decide (host = k ∨ host = "all")
  | _ => false
  end.

(** The state after one call; [None] when the call panics. *)
Definition perform (c : Call) (s : State) : option State :=
  match c with
  | CallSetHeaders h => Some (SetHeaders h s)
  | CallAddHeaders h => Some (AddHeaders h s)
  | CallClearHeaders h => Some (ClearHeaders h s)
  | CallInvoke ctx target service method data =>
      snd <$> Invoke ctx target service method data s
  | CallGetResource ctx target plainText isRestartConn =>
      snd <$> GetResource ctx target plainText isRestartConn s
  | CallGetResourceWithProto ctx target plainText isRestartConn protos =>
      snd <$> GetResourceWithProto ctx target plainText isRestartConn protos s
  | CallGetActiveConns ctx => Some s
  | CallCloseActiveConns host => Some (CloseActiveConns host s).1
  | CallExtend host => Some (Extend host s)
  | Tick => Some (sweep s)
  end.

Fixpoint run (cs : list Call) (s : State) : option State :=
  match cs with
  | [] => Some s
  | c :: cs =>
      match perform c s with
      | Some s' => run cs s'
      | None => None
      end
  end.

(** A client for which the sweep was never started: no sweep is recorded
    in the store or in the trace, the configured lifetime is zero, and no
    cache entry carries an expiry time. *)
Definition never_swept (s : State) : Prop :=
  ConnStore.gc (store s) = None ∧
  count is_startGC (trace s) = 0%nat ∧
  Client.maxLifeConn (client s) = 0 ∧
  ∀ k e, ConnStore.conn (store s) !! k = Some e → ConnStore.expiresAt e = None.

End Methods.

(** ** Concurrent acquisitions

    [GetResource] takes no lock.  Each method of the store is atomic
    (section 4.1 of the specification calls them concurrency-safe), and
    between two of them another goroutine may run.  A call of [GetResource]
    in progress is at one of the following points. *)
Section Interleaving.
Context `{External} (w : World).

Inductive Progress : Type :=
| Start                       (* before [getConnection] *)
| Closing                     (* an entry was found and is not reused *)
| Dialing                     (* before [new(Resource)] and [dial] *)
| Inserting (r : ptr)         (* dialed; before [addConnection] *)
| Returned (out : option ptr * option Err).

(** The arguments of a call of [GetResource]. *)
Record Acquire : Type := mkAcquire {
  acq_ctx : Context;
  acq_target : string;
  acq_plainText : bool;
  acq_isRestartConn : bool
}.

(** One step of a call: from one point to the next.  The lookup together
    with the validity check and the write of the headers is one step,
    [CloseActiveConns] is one step, allocation and [dial] are one step, and
    [addConnection] is one step. *)
Definition advance (a : Acquire) (p : Progress) (s : State)
    : option (Progress * State) :=
  match p with
  | Start =>
      match ConnStore.getConnection (acq_target a) (store s) with
      | Some r =>
          if negb (acq_isRestartConn a) then
            match heap s !! r with
            | None => None
            | Some res =>
                if isValid w (trace s) r res then
                  let h := append (Client.headers (client s))
                                  (Client.reflectHeaders (client s)) in
                  Some (Returned (Some r, None),
                        set_heap (<[r := Resource.set_headers h res]> (heap s)) s)
                else Some (Closing, s)
            end
          else Some (Closing, s)
      | None => Some (Dialing, s)
      end
  | Closing => Some (Dialing, (CloseActiveConns (acq_target a) s).1)
  | Dialing =>
      let g := client s in
      let r : ptr := fresh (dom (heap s)) in
      let h := append (Client.headers g) (Client.reflectHeaders g) in
      let res := Resource.set_md (Some (MetadataFromHeaders w h)) Resource.zero in
      let '(cc, tr) :=
        dial w g (trace s) (acq_ctx a) (acq_target a) (acq_plainText a) in
      match cc with
      | inl err =>
          Some (Returned (None, Some err),
                {| heap := <[r := res]> (heap s); client := g; trace := tr |})
      | inr cc =>
          let res :=
            Resource.set_headers h (Resource.set_clientConn (Some cc) res) in
          Some (Inserting r,
                {| heap := <[r := res]> (heap s); client := g; trace := tr |})
      end
  | Inserting r =>
      Some (Returned (Some r, None),
            set_store
              (ConnStore.addConnection (acq_target a) r
                 (Client.maxLifeConn (client s)) (now w (trace s)) (store s)) s)
  | Returned _ => None
  end.

(** A call run to its end with nothing in between. *)
Fixpoint finish (fuel : nat) (a : Acquire) (p : Progress) (s : State)
    : option ((option ptr * option Err) * State) :=
  match p with
  | Returned out => Some (out, s)
  | _ =>
      match fuel with
      | O => None
      | S fuel =>
          match advance a p s with
          | Some (p', s') => finish fuel a p' s'
          | None => None
          end
      end
  end.

(** Two calls in progress on one client. *)
Record Race : Type := mkRace {
  goA : Progress;
  goB : Progress;
  shared : State
}.

Inductive Turn : Type := TurnA | TurnB.

Definition take (a1 a2 : Acquire) (t : Turn) (x : Race) : option Race :=
  match t with
  | TurnA =>
      match advance a1 (goA x) (shared x) with
      | Some (p, s) => Some {| goA := p; goB := goB x; shared := s |}
      | None => None
      end
  | TurnB =>
      match advance a2 (goB x) (shared x) with
      | Some (p, s) => Some {| goA := goA x; goB := p; shared := s |}
      | None => None
      end
  end.

Fixpoint interleave (a1 a2 : Acquire) (ts : list Turn) (x : Race) : option Race :=
  match ts with
  | [] => Some x
  | t :: ts =>
      match take a1 a2 t x with
      | Some x' => interleave a1 a2 ts x'
      | None => None
      end
  end.

End Interleaving.

(** The Resource at [r] holds a connection. *)
Definition connected `{External} (s : State) (r : ptr) : Prop :=
  ∃ res cc, heap s !! r = Some res ∧ Resource.clientConn res = Some cc.

(** Some cache entry points to [r]. *)
Definition cached `{External} (s : State) (r : ptr) : Prop :=
  ∃ k e, ConnStore.conn (store s) !! k = Some e ∧ ConnStore.resource e = r.

(** The connection of [r] was closed. *)
Definition was_closed `{External} (s : State) (r : ptr) : Prop :=
  EClose r ∈ trace s.

(** [r] is an orphan: it holds a connection that nothing will close, since
    no cache entry leads to it. *)
Definition orphan `{External} (s : State) (r : ptr) : Prop :=
  connected s r ∧ ¬ cached s r ∧ ¬ was_closed s r.

(** No Resource is an orphan. *)
Definition tidy `{External} (s : State) : Prop :=
  ∀ r, connected s r → cached s r ∨ was_closed s r.

(** Only Resources of the heap were ever closed. *)
Definition closed_known `{External} (s : State) : Prop :=
  ∀ r, was_closed s r → is_Some (heap s !! r).

(** The invariants at once: the cache points into the heap, no Resource
    is an orphan, what was closed is in the heap, and, when [b] is set, the
    sweep was never started. *)
Definition good `{External} (b : bool) (s : State) : Prop :=
  wf s ∧ tidy s ∧ closed_known s ∧ (b = true → never_swept s).

(** The reading of "two concurrent acquisitions for one endpoint never
    both insert a cache entry such that one is orphaned with its handle
    unclosed": however two calls of [GetResource] for the same endpoint on
    a new client are interleaved, once both have returned no Resource is an
    orphan. *)
Definition never_orphans `{External} (w : World) : Prop :=
  ∀ (getenv : string → string) (ctx1 ctx2 : Context) (target : string)
    (pt1 pt2 rs1 rs2 : bool) (ts : list Turn) (out1 out2 : option ptr * option Err)
    (s : State),
    interleave w (mkAcquire ctx1 target pt1 rs1) (mkAcquire ctx2 target pt2 rs2)
      ts {| goA := Start; goB := Start; shared := NewClient getenv |} =
      Some {| goA := Returned out1; goB := Returned out2; shared := s |} →
    tidy s.

(** The reading of "when either is non-positive ... cached entries persist
    until explicitly closed": on a client made with a non-positive maximum
    lifetime or sweep interval, an endpoint that is cached stays cached over
    every call that is not a call of [CloseActiveConns]. *)
Definition cached_until_closed `{External} (w : World) : Prop :=
  ∀ (getenv : string → string) (cs : list Call) (c : Call) (s s' : State)
    (k : string),
    ¬ (0 < envInt getenv "MAX_LIFE_CONN" 10 ∧
       0 < envInt getenv "TICK_CLOSE_CONN" 3) →
    run w cs (NewClient getenv) = Some s →
    (∀ host, c ≠ CallCloseActiveConns host) →
    perform w c s = Some s' →
    is_Some (ConnStore.getConnection k (store s)) →
    is_Some (ConnStore.getConnection k (store s')).

(** ** Further predicates on acquisitions *)
Section AcquisitionEvents.
Context `{External} (w : World).

(** The error of the credentials branch of [dial], if there is one: the
    credential loader fails, or the server name is set and overriding it
    fails. *)
Definition credentialError (g : Client.t) (tr : list Event) : option Err :=
  match ClientTransportCredentials w tr (Client.insecure g) (Client.cacert g)
          (Client.cert g) (Client.key g) with
  | inl err => Some err
  | inr creds =>
      if bool_decide (Client.serverName g ≠ "") then
        match OverrideServerName w creds (Client.serverName g) with
        | inl err => Some err
        | inr _ => None
        end
      else None
  end.

(** What an event caused by [GetResource] on client [g] looks like: a
    close; a load of the credentials of [g], only without [plainText]; or a
    dial of the target under the fixed timeout, on tcp or unix, with the
    options of [g], and with credentials exactly when [plainText] is
    false. *)
Definition acquire_event (g : Client.t) (plainText : bool) (ctx : Context)
    (target : string) (e : Event) : Prop :=
  match e with
  | EClose _ => True
  | ECredentials i ca ce k =>
      plainText = false ∧ i = Client.insecure g ∧ ca = Client.cacert g ∧
      ce = Client.cert g ∧ k = Client.key g
  | EDial c network t creds opts =>
      c = WithTimeout ctx (10 * Second) ∧ t = target ∧
      (network = "tcp" ∨ network = "unix") ∧
      opts = dialOptions w g ∧
      (creds = None ↔ plainText = true)
  | _ => False
  end.

End AcquisitionEvents.

(** ** A concrete world, for running the methods *)
Module Scenario.

(** Connections are numbered, errors and credentials are texts, metadata is
    the list of header lines, a float is a number of milliseconds. *)
Definition ext : External :=
  {| Conn := nat; Creds := string; Err := string; MD := list string;
     F64 := Z; f64_zero := 0 |}.
#[export] Existing Instance ext.

Definition closed (tr : list Event) (r : ptr) : bool :=
  existsb (λ e, match e with EClose r' => bool_decide (r' = r) | _ => false end) tr.

(** The endpoint ["down:1"] refuses connections, every other one accepts;
    a resource is valid until it is closed; the clock advances with the
    trace; descriptor sets are persisted unless one of the files is named
    ["bad.proto"]. *)
Definition world : World :=
  {| MetadataFromHeaders := elems;
     ClientTransportCredentials := λ _ _ ca _ _,
       if bool_decide (ca = "missing.pem") then inl "no such file"
       else inr "tls";
     OverrideServerName := λ c n, inr (c +:+ "@" +:+ n);
     BlockingDial := λ tr _ _ target _ _,
       if bool_decide (target = "down:1") then inl "connection refused"
       else inr (length tr);
     now := λ tr, Z.of_nat (length tr) * Second;
     f64_positive := λ k, 0 <? k;
     f64_seconds := λ k, k * 1000000;
     isValid := λ tr r _, negb (closed tr r);
     persist := λ _ _ _ ps,
       if existsb (λ p, bool_decide (Name p = "bad.proto")) (elems ps)
       then Some "cannot write" else None;
     ResourceInvoke := λ tr _ _ _ m _, ("{}", 5, None) |}.

Definition no_env : string → string := λ _, "".

Definition state_of {A} (o : option (A * State)) (d : State) : State :=
  match o with
  | Some (_, s) => s
  | None => d
  end.

(** A client with one caller header that has acquired ["svcA"]. *)
Definition s0 : State :=
  SetHeaders (Some ["authorization: one"]) (NewClient no_env).
Definition s1 : State :=
  state_of (GetResource world Background "svcA" true false s0) s0.

(** The Resource that acquisition created. *)
Definition res1 : Resource.t :=
  {| Resource.clientConn := Some 1%nat;
     Resource.md := Some ["authorization: one"];
     Resource.headers := Some ["authorization: one"];
     Resource.protos := None |}.

(** The caller changes its headers before the next acquisition. *)
Definition s2 : State :=
  SetHeaders (Some ["authorization: two"; "x-trace: 1"]) s1.

(** The state after acquiring ["svcA"] again from [s1]. *)
Definition s3 : State :=
  state_of (GetResource world Background "svcA" true false s1) s1.

Definition one_proto : slice Proto :=
  Some [{| Name := "a.proto"; Content := Some [] |}].

(** Two calls for ["svcA"] on a new client, and the schedule that lets each
    of them look up, then each of them dial, then each of them insert. *)
Definition call_svcA : Acquire := mkAcquire Background "svcA" true false.
Definition alternate : list Turn :=
  [TurnA; TurnB; TurnA; TurnB; TurnA; TurnB].
Definition raced : option Race :=
  interleave world call_svcA call_svcA alternate
    {| goA := Start; goB := Start; shared := NewClient no_env |}.

(** The client of [s1] with TLS material whose CA file cannot be read. *)
Definition s_tls : State := with_tls false "missing.pem" "" "" "" s1.

(** An endpoint that is itself named ["all"] is acquired after ["svcA"]. *)
Definition s_all : State :=
  state_of (GetResource world Background "all" true false s1) s1.


(** A descriptor set that the world cannot persist. *)
Definition bad_proto : slice Proto :=
  Some [{| Name := "bad.proto"; Content := Some [] |}].

(** An environment that asks for 5 minutes and 2 seconds. *)
Definition env_5_2 (name : string) : string :=
  if bool_decide (name = "MAX_LIFE_CONN") then "5"
  else if bool_decide (name = "TICK_CLOSE_CONN") then "2"
  else "".

(** An environment that turns the sweep off. *)
Definition env_off (name : string) : string :=
  if bool_decide (name = "MAX_LIFE_CONN") then "0" else "".

(** A world like [world], except that the server goes away once it has
    accepted a connection: that connection reports invalid, and every later
    dial is refused. *)
Definition world_once : World :=
  {| MetadataFromHeaders := MetadataFromHeaders world;
     ClientTransportCredentials := ClientTransportCredentials world;
     OverrideServerName := OverrideServerName world;
     BlockingDial := λ tr _ _ _ _ _,
       if existsb is_dial tr then inl "connection refused"
       else inr (length tr);
     now := now world;
     f64_positive := f64_positive world;
     f64_seconds := f64_seconds world;
     isValid := λ _ _ _, false;
     persist := persist world;
     ResourceInvoke := ResourceInvoke world |}.

(** In that world, a client without a sweep acquires ["svcA"], then
    acquires it again, without asking for a restart. *)
Definition s_once : State :=
  state_of (GetResource world_once Background "svcA" true false
              (NewClient env_off)) (NewClient env_off).
Definition s_lost : State :=
  state_of (GetResource world_once Background "svcA" true false s_once) s_once.

(** The client of [s2] with a reflection header. *)
Definition s_reflect : State :=
  set_client
    {| Client.KeepAlive := Client.KeepAlive (client s2);
       Client.activeConn := Client.activeConn (client s2);
       Client.maxLifeConn := Client.maxLifeConn (client s2);
       Client.headers := Client.headers (client s2);
       Client.reflectHeaders := Some ["x-reflect: 1"];
       Client.authority := Client.authority (client s2);
       Client.insecure := Client.insecure (client s2);
       Client.cacert := Client.cacert (client s2);
       Client.cert := Client.cert (client s2);
       Client.key := Client.key (client s2);
       Client.serverName := Client.serverName (client s2);
       Client.isUnixSocket := Client.isUnixSocket (client s2) |} s2.

End Scenario.
(** ** Basic facts about the store operations *)
Section StoreFacts.
Context `{External} (w : World).

Lemma set_store_store (s : State) : set_store (store s) s = s.
Proof. by destruct s as [hp [] tr]; cbv; destruct activeConn. Qed.

Lemma remove_absent (host : string) (c : ConnStore.t) :
  ConnStore.conn c !! host = None → ConnStore.remove host c = c.
Proof.
  intros Hn. destruct c as [m g]. unfold ConnStore.remove. simpl in *.
  f_equal. by apply delete_id.
Qed.

(** [delete], whether or not the entry is there. *)
Lemma ConnStore_delete_eq (host : string) (s : State) :
  ConnStore_delete host s =
  {| heap := heap s;
     client := Client.set_activeConn (ConnStore.remove host (store s)) (client s);
     trace := trace s ++
              match ConnStore.conn (store s) !! host with
              | Some e => [EClose (ConnStore.resource e)]
              | None => []
              end |}.
Proof.
  unfold ConnStore_delete.
  destruct (ConnStore.conn (store s) !! host) as [e|] eqn:He; [done|].
  rewrite remove_absent by done. rewrite app_nil_r.
  by rewrite <- (set_store_store s) at 1.
Qed.

Lemma ConnStore_delete_conn (host : string) (s : State) :
  ConnStore.conn (store (ConnStore_delete host s)) =
  delete host (ConnStore.conn (store s)).
Proof. by rewrite ConnStore_delete_eq. Qed.

Lemma ConnStore_delete_gc (host : string) (s : State) :
  ConnStore.gc (store (ConnStore_delete host s)) = ConnStore.gc (store s).
Proof. by rewrite ConnStore_delete_eq. Qed.

Lemma ConnStore_delete_heap (host : string) (s : State) :
  heap (ConnStore_delete host s) = heap s.
Proof. by rewrite ConnStore_delete_eq. Qed.

Lemma ConnStore_delete_absent (host : string) (s : State) :
  ConnStore.conn (store s) !! host = None → ConnStore_delete host s = s.
Proof. intros Hn. unfold ConnStore_delete. by rewrite Hn. Qed.

Lemma delete_keys_cons (k : string) (ks : list string) (s : State) :
  delete_keys (k :: ks) s = delete_keys ks (ConnStore_delete k s).
Proof. done. Qed.

Lemma delete_keys_conn (ks : list string) (s : State) :
  ConnStore.conn (store (delete_keys ks s)) =
  foldl (λ m k, delete k m) (ConnStore.conn (store s)) ks.
Proof.
  revert s. induction ks as [|k ks IH]; intros s; [done|].
  by rewrite delete_keys_cons, IH, ConnStore_delete_conn.
Qed.

Lemma delete_keys_gc (ks : list string) (s : State) :
  ConnStore.gc (store (delete_keys ks s)) = ConnStore.gc (store s).
Proof.
  revert s. induction ks as [|k ks IH]; intros s; [done|].
  by rewrite delete_keys_cons, IH, ConnStore_delete_gc.
Qed.

Lemma delete_keys_heap (ks : list string) (s : State) :
  heap (delete_keys ks s) = heap s.
Proof.
  revert s. induction ks as [|k ks IH]; intros s; [done|].
  by rewrite delete_keys_cons, IH, ConnStore_delete_heap.
Qed.

Lemma foldl_delete_lookup {V} (ks : list string) (m : gmap string V) (k : string) :
  foldl (λ m k, delete k m) m ks !! k =
  if bool_decide (k ∈ ks) then None else m !! k.
Proof.
  revert m. induction ks as [|k' ks IH]; intros m.
  - case_bool_decide as Hin; [|done]. by apply elem_of_nil in Hin.
  - cbn [foldl]. rewrite IH. clear IH.
    destruct (decide (k = k')) as [->|Hne].
    + rewrite lookup_delete_eq.
      rewrite (bool_decide_eq_true_2 (k' ∈ k' :: ks)) by apply list_elem_of_here.
      by case_bool_decide.
    + rewrite lookup_delete_ne by done.
      assert (k ∈ k' :: ks ↔ k ∈ ks) as Hiff.
      { rewrite elem_of_cons. split; [by intros [?|?]|by right]. }
      by rewrite (bool_decide_ext _ _ Hiff).
Qed.

Lemma foldl_delete_all {V} (m : gmap string V) :
  foldl (λ m k, delete k m) m (map_to_list m).*1 = ∅.
Proof.
  apply map_eq. intros k. rewrite foldl_delete_lookup, lookup_empty.
  case_bool_decide as Hin; [done|].
  destruct (m !! k) as [v|] eqn:Hk; [|done].
  exfalso. apply Hin. apply list_elem_of_fmap. exists (k, v).
  split; [done|]. by apply elem_of_map_to_list.
Qed.

End StoreFacts.

(** ** Header setters *)
Section Headers.
Context `{External}.

Lemma elems_append {A} (s t : slice A) :
  elems (append s t) = elems s ++ elems t.
Proof.
  destruct s as [l|], t as [[|x t]|]; simpl; try done.
  all: by rewrite ?app_nil_r.
Qed.

(** C9: for every client state and argument list, [SetHeaders] replaces the
    caller-supplied header list by its argument, [AddHeaders] appends its
    argument after the existing list, which keeps its order, and
    [ClearHeaders] leaves the empty list whatever its argument is. *)
Theorem C9_header_setters (s : State) (hs hs' : slice string) :
  Client.headers (client (SetHeaders hs s)) = hs ∧
  elems (Client.headers (client (AddHeaders hs s))) =
    elems (Client.headers (client s)) ++ elems hs ∧
  Client.headers (client (ClearHeaders hs s)) = Some [] ∧
  ClearHeaders hs s = ClearHeaders hs' s.
Proof.
  repeat split. simpl. apply elems_append.
Qed.

End Headers.

(** ** Closing connections *)
Section Close.
Context `{External}.

Lemma delete_keys_all_conn (s : State) :
  ConnStore.conn
    (store (delete_keys (map_to_list (ConnStore.conn (store s))).*1 s)) = ∅.
Proof. rewrite delete_keys_conn. apply foldl_delete_all. Qed.

Lemma CloseActiveConns_conn (host : string) (s : State) :
  ConnStore.conn (store (CloseActiveConns host s).1) =
  if bool_decide (host = "all") then ∅
  else delete host (ConnStore.conn (store s)).
Proof.
  unfold CloseActiveConns. case_bool_decide; simpl.
  - apply delete_keys_all_conn.
  - apply ConnStore_delete_conn.
Qed.

Lemma CloseActiveConns_target_gone (host : string) (s : State) :
  ConnStore.conn (store (CloseActiveConns host s).1) !! host = None.
Proof.
  rewrite CloseActiveConns_conn. case_bool_decide.
  - apply lookup_empty.
  - apply lookup_delete_eq.
Qed.

Lemma CloseActiveConns_heap (host : string) (s : State) :
  heap (CloseActiveConns host s).1 = heap s.
Proof.
  unfold CloseActiveConns. case_bool_decide; simpl.
  - apply delete_keys_heap.
  - apply ConnStore_delete_heap.
Qed.

Lemma CloseActiveConns_gc (host : string) (s : State) :
  ConnStore.gc (store (CloseActiveConns host s).1) = ConnStore.gc (store s).
Proof.
  unfold CloseActiveConns. case_bool_decide; simpl.
  - apply delete_keys_gc.
  - apply ConnStore_delete_gc.
Qed.

(** C6: [CloseActiveConns host] empties the cache when [host] is ["all"]
    and otherwise removes the entry of [host] and no other; it returns a
    nil error in both cases, and when [host] is not cached nothing changes
    at all. *)
Theorem C6_CloseActiveConns (host : string) (s : State) :
  (CloseActiveConns host s).2 = None ∧
  ConnStore.conn (store (CloseActiveConns host s).1) =
    (if bool_decide (host = "all") then ∅
     else delete host (ConnStore.conn (store s))) ∧
  (host ≠ "all" → ConnStore.conn (store s) !! host = None →
   CloseActiveConns host s = (s, None)).
Proof.
  split; [|split].
  - unfold CloseActiveConns. by case_bool_decide.
  - apply CloseActiveConns_conn.
  - intros Hne Hn. unfold CloseActiveConns.
    rewrite bool_decide_eq_false_2 by done.
    by rewrite ConnStore_delete_absent.
Qed.

End Close.

(** ** Acquisition *)
Section Acquire.
Context `{External} (w : World).

Lemma delete_keys_client (ks : list string) (s : State) :
  client (delete_keys ks s) =
  Client.set_activeConn (store (delete_keys ks s)) (client s).
Proof.
  revert s. induction ks as [|k ks IH]; intros s.
  - by destruct s as [hp [] tr].
  - rewrite delete_keys_cons, IH. by rewrite ConnStore_delete_eq.
Qed.

Lemma CloseActiveConns_client (host : string) (s : State) :
  client (CloseActiveConns host s).1 =
  Client.set_activeConn (store (CloseActiveConns host s).1) (client s).
Proof.
  unfold CloseActiveConns. case_bool_decide; simpl.
  - apply delete_keys_client.
  - by rewrite ConnStore_delete_eq.
Qed.

(** What [dial] does with [plainText = true]: no credentials are built. *)
Lemma dial_plain (g : Client.t) (tr : list Event) (ctx : Context)
    (target : string) :
  dial w g tr ctx target true =
  (BlockingDial w tr (WithTimeout ctx dialTime) (dialNetwork g tr) target None
     (dialOptions w g),
   tr ++ [EDial (WithTimeout ctx dialTime) (dialNetwork g tr) target None
            (dialOptions w g)]).
Proof. done. Qed.

(** [dial] extends the trace, by at most one dial. *)
Lemma dial_trace (g : Client.t) (tr : list Event) (ctx : Context)
    (target : string) (plainText : bool) :
  ∃ evs, (dial w g tr ctx target plainText).2 = tr ++ evs ∧
         (count is_dial evs ≤ 1)%nat ∧
         count is_persist evs = 0%nat ∧
         count is_invoke evs = 0%nat ∧
         count is_startGC evs = 0%nat ∧
         (∀ cc, (dial w g tr ctx target plainText).1 = inr cc →
                count is_dial evs = 1%nat).
Proof.
  unfold dial. destruct plainText; simpl.
  - eexists [_]. by repeat split.
  - destruct ClientTransportCredentials as [e|c]; simpl.
    { eexists [_]. repeat split; done || (cbv; lia). }
    case_bool_decide.
    + destruct OverrideServerName as [e|c']; simpl.
      { eexists [_]. repeat split; done || (cbv; lia). }
      eexists [_; _]. rewrite <- app_assoc.
      repeat split; done || (cbv; lia).
    + eexists [_; _]. rewrite <- app_assoc.
      repeat split; done || (cbv; lia).
Qed.

(** [dial] closes nothing. *)
Lemma dial_closes_nothing (g : Client.t) (tr : list Event) (ctx : Context)
    (target : string) (plainText : bool) (r : ptr) :
  EClose r ∈ (dial w g tr ctx target plainText).2 → EClose r ∈ tr.
Proof.
  unfold dial. destruct plainText; simpl.
  - intros [?|Hin]%elem_of_app; [done|].
    by apply list_elem_of_singleton in Hin.
  - assert (∀ e l, EClose r ∈ l ++ [e] → (∀ q, e ≠ EClose q) → EClose r ∈ l)
      as Hsnoc.
    { intros e l [?|Hin]%elem_of_app Hne; [done|].
      apply list_elem_of_singleton in Hin. by destruct (Hne r). }
    destruct ClientTransportCredentials as [e|c]; simpl.
    { intros Hin. by apply Hsnoc in Hin. }
    case_bool_decide.
    + destruct OverrideServerName as [e|c']; simpl.
      { intros Hin. by apply Hsnoc in Hin. }
      intros Hin. apply Hsnoc in Hin; [|done]. by apply Hsnoc in Hin.
    + intros Hin. apply Hsnoc in Hin; [|done]. by apply Hsnoc in Hin.
Qed.

(** The tail of [GetResource] in one piece. *)
Lemma openResource_eq (ctx : Context) (target : string) (plainText : bool)
    (s : State) :
  openResource w ctx target plainText s =
  let r : ptr := fresh (dom (heap s)) in
  let h := combinedHeaders (client s) in
  let m := Some (MetadataFromHeaders w h) in
  let d := dial w (client s) (trace s) ctx target plainText in
  match d.1 with
  | inl err =>
      ((None, Some err),
       {| heap := <[r := {| Resource.clientConn := None; Resource.md := m;
                       Resource.headers := None; Resource.protos := None |}]> (heap s);
          client := client s; trace := d.2 |})
  | inr cc =>
      ((Some r, None),
       {| heap := <[r := {| Resource.clientConn := Some cc; Resource.md := m;
                       Resource.headers := h; Resource.protos := None |}]> (heap s);
          client :=
            Client.set_activeConn
              (ConnStore.addConnection target r (Client.maxLifeConn (client s))
                 (now w d.2) (store s)) (client s);
          trace := d.2 |})
  end.
Proof.
  unfold openResource. simpl.
  destruct (dial w (client s) (trace s) ctx target plainText) as [[e|c] tr];
    simpl; unfold set_heap; simpl.
  - by rewrite insert_insert_eq.
  - by rewrite !insert_insert_eq.
Qed.

Lemma fresh_ptr_unused (s : State) : heap s !! fresh (dom (heap s)) = None.
Proof. apply not_elem_of_dom. apply is_fresh. Qed.

(** The reuse path of [GetResource], as one equation. *)
Lemma GetResource_reuse (ctx : Context) (target : string) (plainText : bool)
    (s : State) (r : ptr) (res : Resource.t) :
  ConnStore.getConnection target (store s) = Some r →
  heap s !! r = Some res →
  isValid w (trace s) r res = true →
  GetResource w ctx target plainText false s =
  Some ((Some r, None),
        set_heap
          (<[r := Resource.set_headers (combinedHeaders (client s)) res]> (heap s))
          s).
Proof.
  intros Hc Hr Hv. unfold GetResource. by rewrite Hc, Hr, Hv.
Qed.

(** C1: when the cache holds a Resource for the endpoint, the Resource
    reports valid and no restart is asked for, [GetResource] returns that
    very Resource; nothing is dialed (the trace is as before), the cache and
    the rest of the client are as before, and the headers of the Resource
    are now the caller-supplied headers followed by the reflection
    headers. *)
Theorem C1_reuse_cached (ctx : Context) (target : string) (plainText : bool)
    (s : State) (r : ptr) (res : Resource.t) :
  ConnStore.getConnection target (store s) = Some r →
  heap s !! r = Some res →
  isValid w (trace s) r res = true →
  ∃ s' res',
    GetResource w ctx target plainText false s = Some ((Some r, None), s') ∧
    trace s' = trace s ∧
    client s' = client s ∧
    ConnStore.getConnection target (store s') = Some r ∧
    heap s' !! r = Some res' ∧
    Resource.headers res' =
      append (Client.headers (client s)) (Client.reflectHeaders (client s)) ∧
    elems (Resource.headers res') =
      elems (Client.headers (client s)) ++
      elems (Client.reflectHeaders (client s)).
Proof.
  intros Hc Hr Hv.
  exists (set_heap
            (<[r := Resource.set_headers (combinedHeaders (client s)) res]>
               (heap s)) s),
         (Resource.set_headers (combinedHeaders (client s)) res).
  split; [by apply GetResource_reuse|].
  repeat split; try done.
  - simpl. apply lookup_insert_eq.
  - simpl. apply elems_append.
Qed.

(** C8: on the reuse path the heap changes at the reused Resource only, and
    there only in the field [headers]: the connection handle, the recorded
    descriptor set and the metadata built when the Resource was created are
    as before, so the metadata is not rebuilt from the new headers. *)
Theorem C8_reuse_writes_headers_only (ctx : Context) (target : string)
    (plainText : bool) (s : State) (r : ptr) (res : Resource.t) :
  ConnStore.getConnection target (store s) = Some r →
  heap s !! r = Some res →
  isValid w (trace s) r res = true →
  ∃ s' res',
    GetResource w ctx target plainText false s = Some ((Some r, None), s') ∧
    heap s' !! r = Some res' ∧
    Resource.md res' = Resource.md res ∧
    Resource.clientConn res' = Resource.clientConn res ∧
    Resource.protos res' = Resource.protos res ∧
    Resource.headers res' = combinedHeaders (client s) ∧
    (∀ q, q ≠ r → heap s' !! q = heap s !! q) ∧
    client s' = client s ∧
    trace s' = trace s.
Proof.
  intros Hc Hr Hv.
  exists (set_heap
            (<[r := Resource.set_headers (combinedHeaders (client s)) res]>
               (heap s)) s),
         (Resource.set_headers (combinedHeaders (client s)) res).
  split; [by apply GetResource_reuse|].
  split; [apply lookup_insert_eq|].
  repeat split; try done.
  intros q Hq. simpl. by apply lookup_insert_ne.
Qed.

Lemma beforeDial_gone (target : string) (s : State) :
  ConnStore.conn (store (beforeDial target s)) !! target = None.
Proof.
  unfold beforeDial, ConnStore.getConnection.
  destruct (ConnStore.conn (store s) !! target) eqn:He; simpl; [|done].
  apply CloseActiveConns_target_gone.
Qed.

Lemma beforeDial_heap (target : string) (s : State) :
  heap (beforeDial target s) = heap s.
Proof.
  unfold beforeDial. destruct ConnStore.getConnection; [|done].
  apply CloseActiveConns_heap.
Qed.

Lemma beforeDial_client (target : string) (s : State) :
  client (beforeDial target s) =
  Client.set_activeConn (store (beforeDial target s)) (client s).
Proof.
  unfold beforeDial. destruct ConnStore.getConnection.
  - apply CloseActiveConns_client.
  - by destruct s as [hp [] tr].
Qed.

Lemma count_app (p : Event → bool) (l1 l2 : list Event) :
  count p (l1 ++ l2) = (count p l1 + count p l2)%nat.
Proof. unfold count. by rewrite filter_app, length_app. Qed.

(** Closing entries only adds [EClose] events to the trace. *)
Lemma ConnStore_delete_count (p : Event → bool) (host : string) (s : State) :
  (∀ r, p (EClose r) = false) →
  count p (trace (ConnStore_delete host s)) = count p (trace s).
Proof.
  intros Hp. rewrite ConnStore_delete_eq. simpl. rewrite count_app.
  destruct (ConnStore.conn (store s) !! host).
  - unfold count at 2. rewrite filter_cons_False by by rewrite Hp.
    simpl. lia.
  - change (count p []) with 0%nat. lia.
Qed.

Lemma delete_keys_count (p : Event → bool) (ks : list string) (s : State) :
  (∀ r, p (EClose r) = false) →
  count p (trace (delete_keys ks s)) = count p (trace s).
Proof.
  intros Hp. revert s. induction ks as [|k ks IH]; intros s; [done|].
  by rewrite delete_keys_cons, IH, ConnStore_delete_count.
Qed.

Lemma CloseActiveConns_count (p : Event → bool) (host : string) (s : State) :
  (∀ r, p (EClose r) = false) →
  count p (trace (CloseActiveConns host s).1) = count p (trace s).
Proof.
  intros Hp. unfold CloseActiveConns. case_bool_decide; simpl.
  - by apply delete_keys_count.
  - by apply ConnStore_delete_count.
Qed.

Lemma beforeDial_count (p : Event → bool) (target : string) (s : State) :
  (∀ r, p (EClose r) = false) →
  count p (trace (beforeDial target s)) = count p (trace s).
Proof.
  intros Hp. unfold beforeDial. destruct ConnStore.getConnection; [|done].
  by apply CloseActiveConns_count.
Qed.

(** Without a reusable Resource, [GetResource] closes and dials. *)
Lemma GetResource_reopen (ctx : Context) (target : string)
    (plainText isRestartConn : bool) (s : State) :
  wf s →
  reusable w target isRestartConn s = false →
  GetResource w ctx target plainText isRestartConn s =
  Some (openResource w ctx target plainText (beforeDial target s)).
Proof.
  intros Hwf Hre. unfold GetResource, reusable, beforeDial in *.
  unfold ConnStore.getConnection in *.
  destruct (ConnStore.conn (store s) !! target) as [e|] eqn:He; simpl in *;
    [|done].
  destruct isRestartConn; simpl in *; [done|].
  destruct (Hwf _ _ He) as [res Hres]. rewrite Hres in *.
  by rewrite Hre.
Qed.

(** C2: without a healthy cached Resource for the endpoint (none cached,
    or the cached one is not valid, or a restart is asked for), the entry of
    the endpoint is deleted and [dial] is run once from that state.  If it
    succeeds, a new Resource is returned whose headers are the caller's
    headers followed by the reflection headers, element by element, and
    whose metadata is derived from them; it is the cache entry of the
    endpoint, with the configured maximum lifetime.  If it fails, the result
    is [(nil, err)] with the error of [dial], the endpoint has no cache
    entry, and no second dial is made. *)
Theorem C2_reacquire (ctx : Context) (target : string)
    (plainText isRestartConn : bool) (s : State) :
  wf s →
  reusable w target isRestartConn s = false →
  let s0 := beforeDial target s in
  let d := dial w (client s0) (trace s0) ctx target plainText in
  let h := append (Client.headers (client s))
                  (Client.reflectHeaders (client s)) in
  ConnStore.conn (store s0) !! target = None ∧
  ∃ out s',
    GetResource w ctx target plainText isRestartConn s = Some (out, s') ∧
    trace s' = d.2 ∧
    (count is_dial (trace s') ≤ count is_dial (trace s) + 1)%nat ∧
    match d.1 with
    | inr cc =>
        ∃ r res,
             out = (Some r, None) ∧
             heap s !! r = None ∧
             heap s' !! r = Some res ∧
             res = {| Resource.clientConn := Some cc;
                      Resource.md := Some (MetadataFromHeaders w h);
                      Resource.headers := h;
                      Resource.protos := None |} ∧
             elems (Resource.headers res) =
               elems (Client.headers (client s)) ++
               elems (Client.reflectHeaders (client s)) ∧
             ConnStore.conn (store s') =
               <[target :=
                   ConnStore.mkConnection r
                     (ConnStore.expiry (now w d.2)
                        (Client.maxLifeConn (client s)))]>
                 (ConnStore.conn (store s0)) ∧
             count is_dial (trace s') = (count is_dial (trace s) + 1)%nat
    | inl err =>
        out = (None, Some err) ∧
        store s' = store s0 ∧
        ConnStore.conn (store s') !! target = None
    end.
Proof.
  intros Hwf Hre s0 d h.
  split; [apply beforeDial_gone|].
  rewrite (GetResource_reopen ctx target plainText isRestartConn s Hwf Hre).
  rewrite openResource_eq. fold s0. cbv zeta.
  assert (combinedHeaders (client s0) = h) as Hh.
  { unfold s0. by rewrite beforeDial_client. }
  assert (Client.maxLifeConn (client s0) = Client.maxLifeConn (client s)) as Hm.
  { unfold s0. by rewrite beforeDial_client. }
  rewrite Hh, Hm. fold d.
  destruct (dial_trace (client s0) (trace s0) ctx target plainText)
    as (evs & Htr & Hle & _ & _ & _ & Hone).
  fold d in Htr, Hone.
  assert (count is_dial (trace s0) = count is_dial (trace s)) as Hc0
    by (by apply beforeDial_count).
  destruct (d.1) as [err|cc] eqn:Hd.
  - eexists _, _. split; [done|]. simpl.
    split; [done|]. split.
    { rewrite Htr, count_app, Hc0. lia. }
    repeat split. apply beforeDial_gone.
  - eexists _, _. split; [done|]. simpl.
    split; [done|]. split.
    { rewrite Htr, count_app, Hc0. lia. }
    eexists _, _. split; [done|].
    split. { rewrite <- (beforeDial_heap target s). apply fresh_ptr_unused. }
    split. { apply lookup_insert_eq. }
    split; [done|].
    split. { apply elems_append. }
    split; [done|].
    rewrite Htr, count_app, Hc0. by rewrite (Hone cc).
Qed.

End Acquire.

(** ** Invariants of the client state *)
Section Invariants.
Context `{External} (w : World).

Lemma was_closed_app (s s' : State) (evs : list Event) (r : ptr) :
  trace s' = trace s ++ evs → was_closed s r → was_closed s' r.
Proof.
  unfold was_closed. intros -> Hin. apply elem_of_app. by left.
Qed.

Lemma good_intro (b : bool) (s s' : State) :
  good b s →
  (∀ p, is_Some (heap s !! p) → is_Some (heap s' !! p)) →
  ConnStore.gc (store s') = ConnStore.gc (store s) →
  Client.maxLifeConn (client s') = Client.maxLifeConn (client s) →
  count is_startGC (trace s') = count is_startGC (trace s) →
  (∀ k e, ConnStore.conn (store s') !! k = Some e →
     ConnStore.conn (store s) !! k = Some e ∨
     (is_Some (heap s' !! ConnStore.resource e) ∧
      ∃ t, ConnStore.expiresAt e =
           ConnStore.expiry t (Client.maxLifeConn (client s)))) →
  (∀ r, connected s' r → connected s r ∨ cached s' r) →
  (∀ r, cached s r → cached s' r ∨ was_closed s' r) →
  (∀ r, was_closed s r → was_closed s' r) →
  (∀ r, was_closed s' r → was_closed s r ∨ cached s r) →
  good b s'.
Proof.
  intros (Hwf & Htidy & Hck & Hns) Hheap Hgc Hml Htr Hconn Hcon Hcach Hclo
    Hnew.
  split; [|split; [|split]].
  - intros k e He. destruct (Hconn k e He) as [Hold|[Hn _]]; [|done].
    apply Hheap. by apply (Hwf k e).
  - intros r Hr. destruct (Hcon r Hr) as [Hold|Hn]; [|by left].
    destruct (Htidy r Hold) as [Hc|Hc]; [by apply Hcach|].
    right. by apply Hclo.
  - intros r Hr. apply Hheap.
    destruct (Hnew r Hr) as [Hc|(k & e & He & <-)]; [by apply Hck|].
    by apply (Hwf k e).
  - intros ->. destruct (Hns eq_refl) as (Hg & Ht & Hm & He).
    split; [congruence|]. split; [congruence|]. split; [congruence|].
    intros k e Hk. destruct (Hconn k e Hk) as [Hold|[_ [t Hexp]]].
    + by apply (He k e).
    + by rewrite Hexp, Hm.
Qed.

Lemma was_closed_before (s s' : State) (evs : list Event) (r : ptr) :
  trace s' = trace s ++ evs →
  Forall (λ e, is_close e = false) evs →
  was_closed s' r → was_closed s r.
Proof.
  unfold was_closed. intros -> HF [?|Hin]%elem_of_app; [done|].
  rewrite Forall_forall in HF. by specialize (HF _ Hin).
Qed.

(** A step that leaves the heap and the store alone and adds events that
    start no sweep and close nothing. *)
Lemma good_frame (b : bool) (s s' : State) (evs : list Event) :
  good b s →
  heap s' = heap s →
  store s' = store s →
  Client.maxLifeConn (client s') = Client.maxLifeConn (client s) →
  trace s' = trace s ++ evs →
  count is_startGC evs = 0%nat →
  Forall (λ e, is_close e = false) evs →
  good b s'.
Proof.
  intros Hg Hh Hst Hml Htr Hcnt Hnc. apply (good_intro b s); try done.
  - by rewrite Hh.
  - by rewrite Hst.
  - rewrite Htr, count_app, Hcnt. lia.
  - intros k e. rewrite Hst. by left.
  - intros r. unfold connected. rewrite Hh. by left.
  - intros r. unfold cached. rewrite Hst. by left.
  - intros r. by apply (was_closed_app s s' evs).
  - intros r Hr. left. by apply (was_closed_before s s' evs).
Qed.

(** A step that rewrites one Resource of the heap without touching its
    connection. *)
Lemma good_update (b : bool) (s s' : State) (r : ptr) (res res' : Resource.t)
    (evs : list Event) :
  good b s →
  heap s !! r = Some res →
  Resource.clientConn res' = Resource.clientConn res →
  heap s' = <[r := res']> (heap s) →
  store s' = store s →
  Client.maxLifeConn (client s') = Client.maxLifeConn (client s) →
  trace s' = trace s ++ evs →
  count is_startGC evs = 0%nat →
  Forall (λ e, is_close e = false) evs →
  good b s'.
Proof.
  intros Hg Hr Hcc Hh Hst Hml Htr Hcnt Hnc. apply (good_intro b s); try done.
  - intros p Hp. rewrite Hh. apply lookup_insert_is_Some'. by right.
  - by rewrite Hst.
  - rewrite Htr, count_app, Hcnt. lia.
  - intros k e. rewrite Hst. by left.
  - intros q (x & cc & Hq & Hx). left. unfold connected.
    rewrite Hh in Hq. destruct (decide (r = q)) as [<-|Hne].
    + rewrite lookup_insert_eq in Hq. injection Hq as <-.
      exists res, cc. split; [done|congruence].
    + rewrite lookup_insert_ne in Hq by done. by exists x, cc.
  - intros q. unfold cached. rewrite Hst. by left.
  - intros q. by apply (was_closed_app s s' evs).
  - intros q Hq. left. by apply (was_closed_before s s' evs).
Qed.

Lemma good_ConnStore_delete (b : bool) (host : string) (s : State) :
  good b s → good b (ConnStore_delete host s).
Proof.
  intros Hg. apply (good_intro b s); try done.
  - by rewrite ConnStore_delete_heap.
  - by rewrite ConnStore_delete_gc.
  - by rewrite ConnStore_delete_eq.
  - by apply ConnStore_delete_count.
  - intros k e. rewrite ConnStore_delete_conn.
    intros [_ ?]%lookup_delete_Some. by left.
  - intros r. unfold connected. rewrite ConnStore_delete_heap. by left.
  - intros r (k & e & He & <-). unfold cached, was_closed.
    rewrite ConnStore_delete_conn, ConnStore_delete_eq. simpl.
    destruct (decide (k = host)) as [->|Hne].
    + right. rewrite He. apply elem_of_app. right. by apply list_elem_of_here.
    + left. exists k, e. by rewrite lookup_delete_ne.
  - intros r. rewrite ConnStore_delete_eq. by eapply was_closed_app.
  - intros r. unfold was_closed. rewrite ConnStore_delete_eq. simpl.
    intros [?|Hin]%elem_of_app; [by left|]. right.
    destruct (ConnStore.conn (store s) !! host) as [e|] eqn:He;
      [|by apply elem_of_nil in Hin].
    apply list_elem_of_singleton in Hin. injection Hin as ->.
    by exists host, e.
Qed.

Lemma good_delete_keys (b : bool) (ks : list string) (s : State) :
  good b s → good b (delete_keys ks s).
Proof.
  revert s. induction ks as [|k ks IH]; intros s Hg; [done|].
  rewrite delete_keys_cons. by apply IH, good_ConnStore_delete.
Qed.

Lemma good_CloseActiveConns (b : bool) (host : string) (s : State) :
  good b s → good b (CloseActiveConns host s).1.
Proof.
  intros Hg. unfold CloseActiveConns. case_bool_decide; simpl.
  - by apply good_delete_keys.
  - by apply good_ConnStore_delete.
Qed.

Lemma good_beforeDial (b : bool) (target : string) (s : State) :
  good b s → good b (beforeDial target s).
Proof.
  intros Hg. unfold beforeDial. destruct ConnStore.getConnection; [|done].
  by apply good_CloseActiveConns.
Qed.

Lemma good_sweep (b : bool) (s : State) : good b s → good b (sweep w s).
Proof.
  intros Hg. unfold sweep. destruct (ConnStore.gc (store s)); [|done].
  by apply good_delete_keys.
Qed.

Lemma good_openResource (b : bool) (ctx : Context) (target : string)
    (plainText : bool) (s : State) :
  good b s →
  ConnStore.conn (store s) !! target = None →
  good b (openResource w ctx target plainText s).2.
Proof.
  intros Hg Hnone. rewrite openResource_eq. cbv zeta.
  destruct (dial_trace w (client s) (trace s) ctx target plainText)
    as (evs & Htr & _ & _ & _ & Hgc & _).
  pose proof (fresh_ptr_unused s) as Hfresh.
  assert (∀ r, EClose r ∈ (dial w (client s) (trace s) ctx target plainText).2 →
               was_closed s r ∨ cached s r) as Hdc.
  { intros r Hin. left. by apply dial_closes_nothing in Hin. }
  destruct (dial w (client s) (trace s) ctx target plainText).1 as [err|cc];
    simpl; apply (good_intro b s); simpl; try done.
  - intros p Hp. apply lookup_insert_is_Some'. by right.
  - rewrite Htr, count_app, Hgc. lia.
  - intros k e He. by left.
  - intros r (x & cc & Hr & Hx). left. simpl in Hr.
    apply lookup_insert_Some in Hr as [[_ <-]|[_ Hr]]; [done|].
    by exists x, cc.
  - intros r. by left.
  - intros r. by eapply was_closed_app.
  - intros p Hp. apply lookup_insert_is_Some'. by right.
  - rewrite Htr, count_app, Hgc. lia.
  - intros k e [[<- <-]|[_ He]]%lookup_insert_Some; [right|by left].
    simpl. split; [by rewrite lookup_insert_eq|by eexists].
  - intros r (x & c & Hr & Hx). simpl in Hr.
    apply lookup_insert_Some in Hr as [[<- _]|[_ Hr]].
    + right. eexists target, _. simpl. by rewrite lookup_insert_eq.
    + left. by exists x, c.
  - intros r (k & e & He & <-). left. exists k, e. simpl.
    rewrite lookup_insert_ne; [done|]. by intros <-; rewrite Hnone in He.
  - intros r. by eapply was_closed_app.
Qed.

Lemma GetResource_cases (ctx : Context) (target : string)
    (plainText isRestartConn : bool) (s : State)
    (out : option ptr * option Err) (s' : State) :
  GetResource w ctx target plainText isRestartConn s = Some (out, s') →
  (∃ r res,
     ConnStore.getConnection target (store s) = Some r ∧
     heap s !! r = Some res ∧
     out = (Some r, None) ∧
     s' = set_heap
            (<[r := Resource.set_headers (combinedHeaders (client s)) res]>
               (heap s)) s) ∨
  (out, s') = openResource w ctx target plainText (beforeDial target s).
Proof.
  unfold GetResource, beforeDial.
  destruct (ConnStore.getConnection target (store s)) as [r|] eqn:Hc;
    [|intros [= <-]; by right].
  destruct isRestartConn; simpl; [intros [= <-]; by right|].
  destruct (heap s !! r) as [res|] eqn:Hr; [|done].
  destruct (isValid w (trace s) r res); intros [= <-]; [|by right].
  left. by exists r, res.
Qed.

Lemma good_GetResource (b : bool) (ctx : Context) (target : string)
    (plainText isRestartConn : bool) (s : State)
    (out : option ptr * option Err) (s' : State) :
  good b s →
  GetResource w ctx target plainText isRestartConn s = Some (out, s') →
  good b s'.
Proof.
  intros Hg [(r & res & Hc & Hr & -> & ->)|Heq]%GetResource_cases.
  - apply (good_update b s _ r res
             (Resource.set_headers (combinedHeaders (client s)) res) []);
      try done.
    simpl. by rewrite app_nil_r.
  - replace s' with (openResource w ctx target plainText (beforeDial target s)).2
      by by rewrite <- Heq.
    apply good_openResource; [by apply good_beforeDial|].
    apply beforeDial_gone.
Qed.

Lemma count_emit (p : Event → bool) (e : Event) (s : State) :
  count p (trace (emit e s)) =
  (count p (trace s) + if p e then 1 else 0)%nat.
Proof.
  simpl. rewrite count_app. f_equal. unfold count.
  destruct (p e) eqn:Hp.
  - by rewrite filter_cons_True.
  - rewrite filter_cons_False; [done|]. by rewrite Hp.
Qed.

Lemma good_emit (b : bool) (e : Event) (s : State) :
  is_startGC e = false → is_close e = false → good b s → good b (emit e s).
Proof.
  intros He Hc Hg. apply (good_frame b s _ [e]); try done.
  - unfold count. rewrite filter_cons_False; [done|]. by rewrite He.
  - by apply Forall_singleton.
Qed.

Lemma good_Resource_AddProtos (b : bool) (r : ptr) (ps : slice Proto)
    (s : State) (err : option Err) (s' : State) :
  good b s → Resource_AddProtos w r ps s = Some (err, s') → good b s'.
Proof.
  intros Hg. unfold Resource_AddProtos.
  destruct (heap s !! r) as [res|] eqn:Hr; [|done].
  destruct DeepEqual; [by intros [= <- <-]|].
  destruct persist; intros [= <- <-].
  - by apply good_emit.
  - apply (good_update b s _ r res (Resource.set_protos ps res)
             [EPersist r ps]); try done.
    by apply Forall_singleton.
Qed.

Lemma good_Resource_Invoke (b : bool) (r : ptr) (ctx : Context)
    (m d : string) (s : State) (out : string * Z * option Err) (s' : State) :
  good b s → Resource_Invoke w r ctx m d s = Some (out, s') → good b s'.
Proof.
  intros Hg. unfold Resource_Invoke.
  destruct (heap s !! r) as [res|]; [|done].
  intros [= <- <-]. by apply good_emit.
Qed.

Lemma good_GetResourceWithProto (b : bool) (ctx : Context) (target : string)
    (plainText isRestartConn : bool) (ps : slice Proto) (s : State)
    (out : option ptr * option Err) (s' : State) :
  good b s →
  GetResourceWithProto w ctx target plainText isRestartConn ps s =
    Some (out, s') →
  good b s'.
Proof.
  intros Hg. unfold GetResourceWithProto, GetResourceWithProto_with.
  destruct (GetResource w ctx target plainText isRestartConn s)
    as [[[r e] s1]|] eqn:HG; [|done].
  pose proof (good_GetResource b _ _ _ _ _ _ _ Hg HG) as Hg1.
  destruct r as [r|], e as [e|]; try done; try by intros [= <- <-].
  destruct (heap s1 !! r) as [res|]; [|done].
  destruct DeepEqual; [by intros [= <- <-]|].
  destruct (Resource_AddProtos w r ps s1) as [[e' s2]|] eqn:HA; [|done].
  intros [= <- <-]. by apply (good_Resource_AddProtos b r ps s1 e').
Qed.

Lemma good_Invoke (b : bool) (ctx : Context)
    (target service method data : string) (s : State)
    (out : string * Z * option Err) (s' : State) :
  good b s →
  Invoke w ctx target service method data s = Some (out, s') →
  good b s'.
Proof.
  intros Hg. unfold Invoke.
  destruct (GetResource w ctx target true false _)
    as [[[r e] s1]|] eqn:HG; [|done].
  assert (good b s1) as Hg1.
  { eapply good_GetResource; [|exact HG]. by apply good_emit. }
  destruct r as [r|], e as [e|]; try done; try by intros [= <- <-].
  by apply good_Resource_Invoke.
Qed.

Lemma good_Extend (b : bool) (host : string) (s : State) :
  good b s → good b (Extend w host s).
Proof.
  intros Hg. apply (good_intro b s); try done.
  - intros k e. simpl.
    intros [(_ & e0 & He0 & ->)|[_ He]]%lookup_alter_Some; [right|by left].
    simpl. split; [|by eexists].
    destruct Hg as [Hwf _]. by apply (Hwf k e0).
  - intros r. by left.
  - intros r (k & e & He & <-). left. unfold cached. simpl.
    destruct (decide (host = k)) as [->|Hne].
    + eexists k, _. rewrite lookup_alter_eq, He. done.
    + exists k, e. by rewrite lookup_alter_ne.
  - intros r Hr. by left.
Qed.

Lemma good_perform (b : bool) (c : Call) (s s' : State) :
  good b s → perform w c s = Some s' → good b s'.
Proof.
  intros Hg. destruct c; simpl.
  - intros [= <-]. apply (good_frame b s _ []); try done.
    simpl. by rewrite app_nil_r.
  - intros [= <-]. apply (good_frame b s _ []); try done.
    simpl. by rewrite app_nil_r.
  - intros [= <-]. apply (good_frame b s _ []); try done.
    simpl. by rewrite app_nil_r.
  - destruct Invoke as [[out s1]|] eqn:HI; intros [= <-].
    by apply (good_Invoke b _ _ _ _ _ _ _ _ Hg HI).
  - destruct GetResource as [[out s1]|] eqn:HI; intros [= <-].
    by apply (good_GetResource b _ _ _ _ _ _ _ Hg HI).
  - destruct GetResourceWithProto as [[out s1]|] eqn:HI; intros [= <-].
    by apply (good_GetResourceWithProto b _ _ _ _ _ _ _ _ Hg HI).
  - by intros [= <-].
  - intros [= <-]. by apply good_CloseActiveConns.
  - intros [= <-]. by apply good_Extend.
  - intros [= <-]. by apply good_sweep.
Qed.

Lemma good_run (b : bool) (cs : list Call) (s s' : State) :
  good b s → run w cs s = Some s' → good b s'.
Proof.
  revert s. induction cs as [|c cs IH]; intros s Hg; simpl.
  - by intros [= <-].
  - destruct (perform w c s) as [s1|] eqn:Hp; [|done].
    apply IH. by apply (good_perform b c s).
Qed.

(** When no sweep was started, the timer changes nothing. *)
Lemma sweep_never_started (s : State) :
  ConnStore.gc (store s) = None → sweep w s = s.
Proof. intros Hgc. unfold sweep. by rewrite Hgc. Qed.

Lemma run_without_ticks (cs : list Call) (s : State) :
  good true s →
  run w (filter (λ c, is_tick c = false) cs) s = run w cs s.
Proof.
  revert s. induction cs as [|c cs IH]; intros s Hg; [done|].
  destruct (is_tick c) eqn:Hc.
  - rewrite filter_cons_False by by rewrite Hc.
    destruct c; try done. simpl.
    rewrite sweep_never_started; [by apply IH|].
    by destruct Hg as (_ & _ & _ & Hns); destruct (Hns eq_refl).
  - rewrite filter_cons_True by done. simpl.
    destruct (perform w c s) as [s1|] eqn:Hp; [|done].
    apply IH. by apply (good_perform true c s).
Qed.

(** Without a sweep, a call that does not run [CloseActiveConns] leaves
    every endpoint with the Resource it had. *)
Lemma quiet_call_keeps_entries (c : Call) (s s' : State) (k : string) :
  ConnStore.gc (store s) = None →
  may_close c = false →
  perform w c s = Some s' →
  ConnStore.getConnection k (store s') = ConnStore.getConnection k (store s).
Proof.
  intros Hgc Hq. destruct c; try done; simpl; intros [= <-]; try done.
  - unfold ConnStore.getConnection. simpl.
    destruct (decide (host = k)) as [->|Hne].
    + rewrite lookup_alter_eq. by destruct (ConnStore.conn (store s) !! k).
    + by rewrite lookup_alter_ne.
  - by rewrite sweep_never_started.
Qed.

Lemma good_empty (b : bool) (g : Client.t) (tr : list Event) :
  ConnStore.conn (Client.activeConn g) = ∅ →
  Forall (λ e, is_close e = false) tr →
  (b = true → ConnStore.gc (Client.activeConn g) = None ∧
              count is_startGC tr = 0%nat ∧ Client.maxLifeConn g = 0) →
  good b {| heap := ∅; client := g; trace := tr |}.
Proof.
  intros Hempty Hnc Hb. split; [|split; [|split]].
  - intros k e. unfold store. simpl. by rewrite Hempty, lookup_empty.
  - intros r (x & cc & Hr & _). simpl in Hr. by rewrite lookup_empty in Hr.
  - intros r Hr. unfold was_closed in Hr. simpl in Hr.
    rewrite Forall_forall in Hnc. by specialize (Hnc _ Hr).
  - intros Ht. destruct (Hb Ht) as (? & ? & ?). repeat split; try done.
    intros k e. unfold store. simpl. by rewrite Hempty, lookup_empty.
Qed.

Lemma good_NewClient (getenv : string → string) :
  good false (NewClient getenv).
Proof.
  unfold NewClient. destruct (_ && _); apply good_empty; try done.
  by apply Forall_singleton.
Qed.

Lemma never_swept_NewClient (getenv : string → string) :
  ¬ (0 < envInt getenv "MAX_LIFE_CONN" 10 ∧
     0 < envInt getenv "TICK_CLOSE_CONN" 3) →
  NewClient getenv =
    {| heap := ∅; client := Client.zero ConnStore.NewConnectionStore;
       trace := [] |}.
Proof.
  intros Hn. unfold NewClient.
  destruct (0 <? envInt getenv "MAX_LIFE_CONN" 10) eqn:H1;
  destruct (0 <? envInt getenv "TICK_CLOSE_CONN" 3) eqn:H2; try done.
  exfalso. apply Hn. lia.
Qed.

End Invariants.

(** ** Traces of the methods *)
Section Traces.
Context `{External} (w : World).

Lemma extends_refl (P : Event → Prop) (s : State) : extends P s s.
Proof. exists []. by rewrite app_nil_r. Qed.

Lemma extends_same (P : Event → Prop) (s s' : State) :
  trace s' = trace s → extends P s s'.
Proof. intros Htr. exists []. by rewrite app_nil_r. Qed.

Lemma extends_trans (P : Event → Prop) (s1 s2 s3 : State) :
  extends P s1 s2 → extends P s2 s3 → extends P s1 s3.
Proof.
  intros (e1 & H1 & F1) (e2 & H2 & F2). exists (e1 ++ e2).
  split; [by rewrite H2, H1, app_assoc|by apply Forall_app].
Qed.

Lemma extends_emit (P : Event → Prop) (e : Event) (s : State) :
  P e → extends P s (emit e s).
Proof. intros He. exists [e]. split; [done|]. by apply Forall_singleton. Qed.

Lemma extends_mono (P Q : Event → Prop) (s s' : State) :
  (∀ e, P e → Q e) → extends P s s' → extends Q s s'.
Proof.
  intros HPQ (evs & Htr & HF). exists evs. split; [done|].
  by apply (Forall_impl P).
Qed.

Lemma extends_count (P : Event → Prop) (p : Event → bool) (s s' : State) :
  (∀ e, P e → p e = false) →
  extends P s s' →
  count p (trace s') = count p (trace s).
Proof.
  intros HP (evs & -> & HF). rewrite count_app.
  assert (count p evs = 0%nat) as ->; [|lia].
  induction HF as [|e evs He _ IH]; [done|].
  unfold count in *. rewrite filter_cons_False; [done|].
  by rewrite (HP e He).
Qed.

Lemma extends_ConnStore_delete (P : Event → Prop) (host : string) (s : State) :
  (∀ r, P (EClose r)) → extends P s (ConnStore_delete host s).
Proof.
  intros HP. rewrite ConnStore_delete_eq. eexists. split; [done|].
  destruct (ConnStore.conn (store s) !! host); [|done].
  by apply Forall_singleton.
Qed.

Lemma extends_delete_keys (P : Event → Prop) (ks : list string) (s : State) :
  (∀ r, P (EClose r)) → extends P s (delete_keys ks s).
Proof.
  intros HP. revert s. induction ks as [|k ks IH]; intros s.
  - apply extends_refl.
  - rewrite delete_keys_cons.
    eapply extends_trans; [by apply extends_ConnStore_delete|apply IH].
Qed.

Lemma extends_beforeDial (P : Event → Prop) (target : string) (s : State) :
  (∀ r, P (EClose r)) → extends P s (beforeDial target s).
Proof.
  intros HP. unfold beforeDial, CloseActiveConns.
  destruct ConnStore.getConnection; [|apply extends_refl].
  case_bool_decide; simpl.
  - by apply extends_delete_keys.
  - by apply extends_ConnStore_delete.
Qed.

Lemma extends_openResource (ctx : Context) (target : string)
    (plainText : bool) (s : State) :
  extends (acquisition_event plainText) s
    (openResource w ctx target plainText s).2.
Proof.
  rewrite openResource_eq. cbv zeta.
  assert (∃ evs, (dial w (client s) (trace s) ctx target plainText).2 =
                 trace s ++ evs ∧ Forall (acquisition_event plainText) evs)
    as (evs & Htr & HF).
  { unfold dial. destruct plainText; simpl.
    - eexists [_]. split; [done|]. by apply Forall_singleton.
    - destruct ClientTransportCredentials as [e|c]; simpl.
      { eexists [_]. split; [done|]. by apply Forall_singleton. }
      case_bool_decide.
      + destruct OverrideServerName as [e|c']; simpl.
        { eexists [_]. split; [done|]. by apply Forall_singleton. }
        eexists [_; _]. rewrite <- app_assoc. split; [done|].
        by repeat constructor.
      + eexists [_; _]. rewrite <- app_assoc. split; [done|].
        by repeat constructor. }
  destruct (dial w (client s) (trace s) ctx target plainText).1;
    by exists evs.
Qed.

Lemma extends_GetResource (ctx : Context) (target : string)
    (plainText isRestartConn : bool) (s : State)
    (out : option ptr * option Err) (s' : State) :
  GetResource w ctx target plainText isRestartConn s = Some (out, s') →
  extends (acquisition_event plainText) s s'.
Proof.
  intros [(r & res & Hc & Hr & -> & ->)|Heq]%GetResource_cases.
  - by apply extends_same.
  - replace s' with (openResource w ctx target plainText (beforeDial target s)).2
      by by rewrite <- Heq.
    eapply extends_trans; [by apply extends_beforeDial|].
    apply extends_openResource.
Qed.

(** From a well-formed state [GetResource] returns, with a Resource of the
    heap and no error, or with an error and no Resource. *)
Lemma GetResource_total (ctx : Context) (target : string)
    (plainText isRestartConn : bool) (s : State) :
  wf s →
  ∃ out s',
    GetResource w ctx target plainText isRestartConn s = Some (out, s') ∧
    ((∃ r, out = (Some r, None) ∧ is_Some (heap s' !! r) ∧
           ConnStore.getConnection target (store s') = Some r) ∨
     (∃ err, out = (None, Some err))).
Proof.
  intros Hwf.
  destruct (reusable w target isRestartConn s) eqn:Hre.
  - unfold reusable in Hre.
    destruct (ConnStore.getConnection target (store s)) as [r|] eqn:Hc; [|done].
    destruct isRestartConn; [done|].
    destruct (heap s !! r) as [res|] eqn:Hr; [|done]. simpl in Hre.
    rewrite (GetResource_reuse w ctx target plainText s r res Hc Hr Hre).
    eexists _, _. split; [done|]. left. exists r.
    split; [done|]. split; [|done]. simpl. rewrite lookup_insert_eq. by eexists.
  - rewrite (GetResource_reopen w ctx target plainText isRestartConn s Hwf Hre).
    rewrite openResource_eq. cbv zeta.
    destruct (dial w _ _ ctx target plainText).1 as [err|cc].
    + eexists _, _. split; [done|]. right. by exists err.
    + eexists _, _. split; [done|]. left. eexists.
      split; [done|]. simpl. rewrite lookup_insert_eq. split; [by eexists|].
      unfold ConnStore.getConnection. simpl. by rewrite lookup_insert_eq.
Qed.

End Traces.

(** ** The convenience path [Invoke] *)
Section InvokePath.
Context `{External} (w : World).

(** C5: [Invoke] acquires the Resource of the target without restart
    ([isRestartConn = false]).  If the acquisition fails its error is
    returned and [Resource.Invoke] is not run: the state is the one the
    acquisition left and the trace has no new invocation.  Otherwise the
    result is that of [Resource.Invoke] on the acquired Resource with the
    method name [service ++ "." ++ method]. *)
Theorem C5_Invoke_delegates (ctx : Context)
    (target service method data : string) (s : State) :
  wf s →
  let s0 := emit (ELog (invoke_log target service method data)) s in
  let name := service +:+ "." +:+ method in
  ∃ out s1,
    GetResource w ctx target true false s0 = Some (out, s1) ∧
    count is_invoke (trace s1) = count is_invoke (trace s) ∧
    ((∃ err, out = (None, Some err) ∧
             Invoke w ctx target service method data s =
               Some (("", 0, Some err), s1)) ∨
     (∃ r res, out = (Some r, None) ∧
               heap s1 !! r = Some res ∧
               Invoke w ctx target service method data s =
                 Resource_Invoke w r ctx name data s1 ∧
               Invoke w ctx target service method data s =
                 Some (ResourceInvoke w (trace s1) r res ctx name data,
                       emit (EInvoke r ctx name data) s1))).
Proof.
  intros Hwf s0 name.
  assert (wf s0) as Hwf0 by done.
  destruct (GetResource_total w ctx target true false s0 Hwf0)
    as (out & s1 & HG & Hout).
  exists out, s1. split; [done|]. split.
  { rewrite (extends_count (acquisition_event true) is_invoke s0 s1).
    - unfold s0. rewrite count_emit. simpl. lia.
    - by intros [].
    - by apply (extends_GetResource w ctx target true false s0 out). }
  unfold Invoke. fold s0. rewrite HG.
  destruct Hout as [(r & -> & [res Hres] & _)|(err & ->)].
  - right. exists r, res. repeat split; try done.
    unfold Resource_Invoke. by rewrite Hres.
  - left. by exists err.
Qed.

Lemma store_with_tls (i : bool) (ca ce k sn : string) (s : State) :
  store (with_tls i ca ce k sn s) = store s.
Proof. done. Qed.

Lemma with_tls_ConnStore_delete (i : bool) (ca ce k sn host : string)
    (s : State) :
  ConnStore_delete host (with_tls i ca ce k sn s) =
  with_tls i ca ce k sn (ConnStore_delete host s).
Proof.
  unfold ConnStore_delete. rewrite store_with_tls.
  by destruct (ConnStore.conn (store s) !! host).
Qed.

Lemma with_tls_delete_keys (i : bool) (ca ce k sn : string)
    (ks : list string) (s : State) :
  delete_keys ks (with_tls i ca ce k sn s) =
  with_tls i ca ce k sn (delete_keys ks s).
Proof.
  revert s. induction ks as [|k' ks IH]; intros s; [done|].
  by rewrite !delete_keys_cons, with_tls_ConnStore_delete, IH.
Qed.

Lemma with_tls_beforeDial (i : bool) (ca ce k sn target : string) (s : State) :
  beforeDial target (with_tls i ca ce k sn s) =
  with_tls i ca ce k sn (beforeDial target s).
Proof.
  unfold beforeDial, CloseActiveConns. rewrite store_with_tls.
  destruct (ConnStore.getConnection target (store s)); [|done].
  case_bool_decide; simpl.
  - apply with_tls_delete_keys.
  - apply with_tls_ConnStore_delete.
Qed.

Lemma with_tls_openResource (i : bool) (ca ce k sn : string) (ctx : Context)
    (target : string) (s : State) :
  openResource w ctx target true (with_tls i ca ce k sn s) =
  ((openResource w ctx target true s).1,
   with_tls i ca ce k sn (openResource w ctx target true s).2).
Proof.
  rewrite !openResource_eq. cbv zeta. rewrite !dial_plain. simpl.
  by destruct BlockingDial.
Qed.

Lemma with_tls_GetResource (i : bool) (ca ce k sn : string) (ctx : Context)
    (target : string) (isRestartConn : bool) (s : State) :
  GetResource w ctx target true isRestartConn (with_tls i ca ce k sn s) =
  (λ os, (os.1, with_tls i ca ce k sn os.2)) <$>
    GetResource w ctx target true isRestartConn s.
Proof.
  unfold GetResource. rewrite store_with_tls.
  destruct (ConnStore.getConnection target (store s)) as [r|] eqn:Hc; simpl.
  - assert ((CloseActiveConns target (with_tls i ca ce k sn s)).1 =
            with_tls i ca ce k sn (CloseActiveConns target s).1) as Hcl.
    { pose proof (with_tls_beforeDial i ca ce k sn target s) as Hb.
      unfold beforeDial in Hb. rewrite store_with_tls in Hb.
      by rewrite Hc in Hb. }
    destruct isRestartConn; simpl.
    + by rewrite Hcl, with_tls_openResource.
    + destruct (heap s !! r) as [res|]; [|done].
      destruct isValid; simpl; [done|].
      by rewrite Hcl, with_tls_openResource.
  - by rewrite with_tls_openResource.
Qed.

(** C10: [Invoke] acquires with [plainText = true].  Its outcome does not
    depend on the TLS material of the client (insecure flag, CA
    certificate, client certificate and key, server name), and among the
    calls it adds to the trace no dial carries credentials and the
    credential loader is not consulted. *)
Theorem C10_Invoke_without_credentials (ctx : Context)
    (target service method data : string) (s : State)
    (i : bool) (ca ce k sn : string) :
  Invoke w ctx target service method data (with_tls i ca ce k sn s) =
    (λ os, (os.1, with_tls i ca ce k sn os.2)) <$>
      Invoke w ctx target service method data s ∧
  (∀ g tr ctx', (dial w g tr ctx' target true).2 =
       tr ++ [EDial (WithTimeout ctx' dialTime) (dialNetwork g tr) target None
                (dialOptions w g)]) ∧
  ∀ out s', Invoke w ctx target service method data s = Some (out, s') →
    extends (λ e, no_tls e = true) s s'.
Proof.
  split; [|split; [done|]].
  - unfold Invoke.
    change (emit ?e (with_tls i ca ce k sn s))
      with (with_tls i ca ce k sn (emit e s)).
    rewrite with_tls_GetResource.
    destruct (GetResource w ctx target true false _) as [[[r e] s1]|]; [|done].
    simpl. destruct r as [r|], e as [e|]; try done.
    unfold Resource_Invoke. simpl. by destruct (heap s1 !! r).
  - intros out s'. unfold Invoke.
    destruct (GetResource w ctx target true false _) as [[[r e] s1]|] eqn:HG;
      [|done].
    apply extends_GetResource in HG.
    assert (extends (λ e, no_tls e = true) s s1) as Hs1.
    { eapply extends_trans; [|eapply extends_mono; [|exact HG]].
      - by apply extends_emit.
      - intros [] He; try done. simpl in He. by rewrite He. }
    destruct r as [r|], e as [e|]; try done; try by intros [= <- <-].
    unfold Resource_Invoke. destruct (heap s1 !! r); [|done].
    intros [= <- <-]. eapply extends_trans; [exact Hs1|].
    by apply extends_emit.
Qed.

End InvokePath.

(** ** Descriptor sets *)
Section Descriptors.
Context `{External} (w : World).

Lemma DeepEqual_eq (a b : slice Proto) : DeepEqual a b = true ↔ a = b.
Proof. unfold DeepEqual. apply bool_decide_eq_true. Qed.

(** A successful acquisition leaves the Resource in the cache. *)
Lemma GetResource_cached (ctx : Context) (target : string)
    (plainText isRestartConn : bool) (s : State) (r : ptr) (s' : State) :
  GetResource w ctx target plainText isRestartConn s =
    Some ((Some r, None), s') →
  ConnStore.getConnection target (store s') = Some r.
Proof.
  intros [(r' & res & Hc & Hr & [= ->] & ->)|Heq]%GetResource_cases; [done|].
  rewrite openResource_eq in Heq. cbv zeta in Heq.
  destruct (dial w _ _ ctx target plainText).1; [done|].
  injection Heq as -> ->. unfold ConnStore.getConnection. simpl.
  by rewrite lookup_insert_eq.
Qed.

Lemma Resource_AddProtos_differ (r : ptr) (ps : slice Proto) (s : State)
    (res : Resource.t) :
  heap s !! r = Some res →
  Resource.protos res ≠ ps →
  Resource_AddProtos w r ps s =
  Some match persist w (trace s) r res ps with
       | Some err => (Some err, emit (EPersist r ps) s)
       | None =>
           (None,
            set_heap (<[r := Resource.set_protos ps res]> (heap s))
              (emit (EPersist r ps) s))
       end.
Proof.
  intros Hr Hne. unfold Resource_AddProtos. rewrite Hr.
  unfold DeepEqual. rewrite bool_decide_eq_false_2 by done.
  by destruct persist.
Qed.

(** C4 (amended): after a successful acquisition, a descriptor set that is
    deep-equal to the recorded one (the same files in the same order, nil
    and empty being different) makes [GetResourceWithProto] return the
    Resource without running [AddProtos]: whatever [AddProtos] does when it
    is run, the call ends in the state the acquisition left, with no error.
    A different set makes it run [AddProtos] once, on the Resource and the
    state the acquisition left, and return what [AddProtos] returns; the
    [AddProtos] of the specification then persists once.  A second call with the same set that
    reuses the Resource, after a first call that returned no error,
    persists nothing: together the two calls persist once if the set was
    different from the recorded one before the first call and not at all if
    it was already recorded. *)
Theorem C4_descriptors_persisted_at_most_once (ctx : Context)
    (target : string) (plainText isRestartConn : bool) (ps : slice Proto)
    (s : State) (r : ptr) (s1 : State) (res : Resource.t) :
  GetResource w ctx target plainText isRestartConn s =
    Some ((Some r, None), s1) →
  heap s1 !! r = Some res →
  (DeepEqual (Resource.protos res) ps = true ↔ Resource.protos res = ps) ∧
  (Resource.protos res = ps →
     GetResourceWithProto w ctx target plainText isRestartConn ps s =
       Some ((Some r, None), s1)) ∧
  (∀ AddProtos : ptr → slice Proto → State → option (option Err * State),
     GetResourceWithProto_with w AddProtos ctx target plainText isRestartConn
       ps s =
     if DeepEqual (Resource.protos res) ps then Some ((Some r, None), s1)
     else match AddProtos r ps s1 with
          | Some (err, s2) => Some ((Some r, err), s2)
          | None => None
          end) ∧
  (Resource.protos res ≠ ps →
     ∃ err s2,
       Resource_AddProtos w r ps s1 = Some (err, s2) ∧
       GetResourceWithProto w ctx target plainText isRestartConn ps s =
         Some ((Some r, err), s2) ∧
       trace s2 = trace s1 ++ [EPersist r ps]) ∧
  ∀ (s2 : State) (res2 : Resource.t) (ctx' : Context) (plainText' : bool),
    GetResourceWithProto w ctx target plainText isRestartConn ps s =
      Some ((Some r, None), s2) →
    heap s2 !! r = Some res2 →
    isValid w (trace s2) r res2 = true →
    ∃ s3,
      GetResourceWithProto w ctx' target plainText' false ps s2 =
        Some ((Some r, None), s3) ∧
      trace s3 = trace s2 ∧
      count is_persist (trace s3) =
        (count is_persist (trace s) +
         if DeepEqual (Resource.protos res) ps then 0 else 1)%nat.
Proof.
  intros HG Hres.
  assert (count is_persist (trace s1) = count is_persist (trace s)) as Hcnt.
  { apply (extends_count (acquisition_event plainText)).
    - by intros [].
    - by apply (extends_GetResource w ctx target plainText isRestartConn s
                  (Some r, None)). }
  split; [apply DeepEqual_eq|]. split; [|split; [|split]].
  - intros Heq. unfold GetResourceWithProto, GetResourceWithProto_with.
    rewrite HG, Hres.
    by rewrite (proj2 (DeepEqual_eq _ _) Heq).
  - intros AddProtos. unfold GetResourceWithProto_with. rewrite HG, Hres.
    destruct DeepEqual; [done|]. by destruct AddProtos as [[]|].
  - intros Hne. unfold GetResourceWithProto, GetResourceWithProto_with. rewrite HG, Hres.
    unfold DeepEqual. rewrite bool_decide_eq_false_2 by done.
    rewrite (Resource_AddProtos_differ r ps s1 res Hres Hne).
    destruct persist; by eexists _, _.
  - intros s2 res2 ctx' plainText' HG2 Hres2 Hvalid.
    assert (ConnStore.getConnection target (store s2) = Some r ∧
            Resource.protos res2 = ps ∧
            count is_persist (trace s2) =
              (count is_persist (trace s) +
               if DeepEqual (Resource.protos res) ps then 0 else 1)%nat)
      as (Hc2 & Hp2 & Hcnt2).
    { pose proof (GetResource_cached ctx target plainText isRestartConn s r s1
                    HG) as Hc1.
      revert HG2. unfold GetResourceWithProto, GetResourceWithProto_with. rewrite HG, Hres.
      destruct (DeepEqual (Resource.protos res) ps) eqn:Hde.
      - intros [= <-]. apply DeepEqual_eq in Hde.
        rewrite Hres in Hres2. injection Hres2 as <-.
        split; [done|]. split; [done|]. lia.
      - assert (Resource.protos res ≠ ps) as Hne.
        { intros Heq. apply DeepEqual_eq in Heq. congruence. }
        rewrite (Resource_AddProtos_differ r ps s1 res Hres Hne).
        destruct persist; [done|]. intros [= <-].
        simpl in Hres2. rewrite lookup_insert_eq in Hres2.
        injection Hres2 as <-. split; [done|]. split; [done|].
        change (count is_persist (trace (emit (EPersist r ps) s1)) =
                (count is_persist (trace s) + 1)%nat).
        rewrite count_emit, Hcnt. done. }
    exists (set_heap
              (<[r := Resource.set_headers (combinedHeaders (client s2)) res2]>
                 (heap s2)) s2).
    split; [|by split].
    unfold GetResourceWithProto, GetResourceWithProto_with.
    rewrite (GetResource_reuse w ctx' target plainText' s2 r res2 Hc2 Hres2
               Hvalid).
    simpl. rewrite lookup_insert_eq. simpl.
    by rewrite (proj2 (DeepEqual_eq _ _) Hp2).
Qed.

End Descriptors.

(** ** Concurrent acquisitions *)
Section Races.
Context `{External} (w : World).

(** The steps of a call, run with nothing in between, are [GetResource]. *)
Lemma finish_GetResource (a : Acquire) (s : State) :
  finish w 4 a Start s =
  GetResource w (acq_ctx a) (acq_target a) (acq_plainText a)
    (acq_isRestartConn a) s.
Proof.
  destruct a as [ctx target pt rs]. unfold GetResource.
  cbn [acq_ctx acq_target acq_plainText acq_isRestartConn].
  set (a := mkAcquire ctx target pt rs).
  assert (∀ n s0, finish w (S (S n)) a Dialing s0 =
                  Some (openResource w ctx target pt s0)) as Hopen.
  { intros n s0. rewrite openResource_eq. cbv zeta.
    cbn [finish advance a acq_ctx acq_target acq_plainText].
    by destruct (dial w (client s0) (trace s0) ctx target pt) as [[e|c] tr],
       n. }
  assert (∀ s0, finish w 3 a Closing s0 =
                Some (openResource w ctx target pt
                        (CloseActiveConns target s0).1)) as Hclose.
  { intros s0. apply (Hopen 0%nat). }
  change (finish w 4 a Start s)
    with (match advance w a Start s with
          | Some (p', s') => finish w 3 a p' s'
          | None => None
          end).
  cbn [advance a acq_target acq_isRestartConn].
  destruct (ConnStore.getConnection target (store s)) as [r|];
    [|apply (Hopen 1%nat)].
  destruct rs; cbn [negb]; [apply Hclose|].
  destruct (heap s !! r) as [res|]; [|done].
  destruct (isValid w (trace s) r res); [done|apply Hclose].
Qed.

(** Two calls for an endpoint that is not cached, each looking up before
    the other inserts: both dial, both insert, and the Resource inserted
    first is left without a cache entry and unclosed. *)
Lemma race_orphans (a1 a2 : Acquire) (s : State) (c1 c2 : Conn)
    (tr1 tr2 : list Event) :
  good false s →
  acq_target a2 = acq_target a1 →
  ConnStore.getConnection (acq_target a1) (store s) = None →
  dial w (client s) (trace s) (acq_ctx a1) (acq_target a1) (acq_plainText a1) =
    (inr c1, tr1) →
  dial w (client s) tr1 (acq_ctx a2) (acq_target a2) (acq_plainText a2) =
    (inr c2, tr2) →
  ∃ r2 s',
    interleave w a1 a2 [TurnA; TurnB; TurnA; TurnB; TurnA; TurnB]
      {| goA := Start; goB := Start; shared := s |} =
      Some {| goA := Returned (Some (fresh (dom (heap s))), None);
              goB := Returned (Some r2, None);
              shared := s' |} ∧
    r2 ≠ fresh (dom (heap s)) ∧
    ConnStore.getConnection (acq_target a1) (store s') = Some r2 ∧
    orphan s' (fresh (dom (heap s))).
Proof.
  intros (Hwf & _ & Hck & _) Htarget Hmiss Hd1 Hd2.
  destruct a1 as [ctx1 target pt1 rs1], a2 as [ctx2 target2 pt2 rs2].
  simpl in *. subst target2.
  pose proof (fresh_ptr_unused s) as Hr1.
  assert (¬ was_closed s (fresh (dom (heap s)))) as Hnot.
  { intros Hc. destruct (Hck _ Hc) as [x Hx]. by rewrite Hr1 in Hx. }
  repeat (cbn [interleave take goA goB shared advance acq_target acq_ctx
                acq_plainText acq_isRestartConn client trace heap];
          first [rewrite Hmiss | rewrite Hd1 | rewrite Hd2]).
  cbn [interleave take goA goB shared advance acq_target acq_ctx
         acq_plainText acq_isRestartConn client trace heap].
  set (r1 := fresh (dom (heap s))) in *.
  set (h := append (Client.headers (client s)) (Client.reflectHeaders (client s))).
  set (res1 := Resource.set_headers h
                 (Resource.set_clientConn (Some c1)
                    (Resource.set_md (Some (MetadataFromHeaders w h))
                       Resource.zero))).
  set (r2 := fresh (dom (<[r1 := res1]> (heap s)))).
  assert (r2 ≠ r1) as Hne.
  { intros Heq. pose proof (is_fresh (dom (<[r1 := res1]> (heap s)))) as Hf.
    fold r2 in Hf. rewrite Heq in Hf. apply Hf.
    apply elem_of_dom. rewrite lookup_insert_eq. by eexists. }
  eexists r2, _. split; [reflexivity|]. split; [done|].
  split.
  { unfold ConnStore.getConnection. simpl. by rewrite lookup_insert_eq. }
  split; [|split].
  - exists res1, c1. simpl. split; [|done].
    rewrite lookup_insert_ne by done. by rewrite lookup_insert_eq.
  - intros (k & e & He & Hres). simpl in He.
    apply lookup_insert_Some in He as [[_ <-]|[Hk He]]; [done|].
    apply lookup_insert_Some in He as [[<- _]|[_ He]]; [done|].
    destruct (Hwf k e He) as [x Hx]. rewrite Hres in Hx. congruence.
  - unfold was_closed. simpl. intros Hin. apply Hnot. unfold was_closed.
    assert (tr2 = (dial w (client s) tr1 ctx2 target pt2).2) as Htr2
      by by rewrite Hd2.
    rewrite Htr2 in Hin. apply dial_closes_nothing in Hin.
    assert (tr1 = (dial w (client s) (trace s) ctx1 target pt1).2) as Htr1
      by by rewrite Hd1.
    rewrite Htr1 in Hin. by apply dial_closes_nothing in Hin.
Qed.

(** C7 (amended): each operation on the cache is one step, but
    [GetResource] is several of them with no lock around them.  Calls that
    run one after the other never leave a Resource that holds a connection
    without either a cache entry or a close.  Two calls for the same
    uncached endpoint that both look up before either inserts both dial and
    both insert: the second insert replaces the entry of the first, whose
    Resource is then an orphan with its connection unclosed. *)
Theorem C7_unserialized_acquisitions_orphan (a1 a2 : Acquire) (s : State)
    (c1 c2 : Conn) (tr1 tr2 : list Event) :
  good false s →
  acq_target a2 = acq_target a1 →
  ConnStore.getConnection (acq_target a1) (store s) = None →
  dial w (client s) (trace s) (acq_ctx a1) (acq_target a1) (acq_plainText a1) =
    (inr c1, tr1) →
  dial w (client s) tr1 (acq_ctx a2) (acq_target a2) (acq_plainText a2) =
    (inr c2, tr2) →
  (finish w 4 a1 Start s =
     GetResource w (acq_ctx a1) (acq_target a1) (acq_plainText a1)
       (acq_isRestartConn a1) s) ∧
  (∀ cs s', run w cs s = Some s' → tidy s') ∧
  ∃ r2 s',
    interleave w a1 a2 [TurnA; TurnB; TurnA; TurnB; TurnA; TurnB]
      {| goA := Start; goB := Start; shared := s |} =
      Some {| goA := Returned (Some (fresh (dom (heap s))), None);
              goB := Returned (Some r2, None);
              shared := s' |} ∧
    r2 ≠ fresh (dom (heap s)) ∧
    ConnStore.getConnection (acq_target a1) (store s') = Some r2 ∧
    orphan s' (fresh (dom (heap s))).
Proof.
  intros Hg Htarget Hmiss Hd1 Hd2.
  split; [apply finish_GetResource|]. split.
  - intros cs s' Hrun.
    by destruct (good_run w false cs s s' Hg Hrun) as (_ & ? & _).
  - by apply (race_orphans a1 a2 s c1 c2 tr1 tr2).
Qed.

End Races.

(** ** Reachable states *)
Section Reachable.
Context `{External} (w : World).

(** X1: from a new client, whatever calls are made one after the other and
    whenever the sweep runs in between, every cache entry points to a
    Resource of the heap, every Resource that holds a connection is cached
    or closed, and [GetResource] returns: a Resource that is then cached for
    the endpoint and no error, or an error and no Resource. *)
Theorem reachable_states_are_sound (getenv : string → string)
    (cs : list Call) (s : State) :
  run w cs (NewClient getenv) = Some s →
  wf s ∧ tidy s ∧
  ∀ ctx target plainText isRestartConn,
    ∃ out s',
      GetResource w ctx target plainText isRestartConn s = Some (out, s') ∧
      ((∃ r, out = (Some r, None) ∧ is_Some (heap s' !! r) ∧
             ConnStore.getConnection target (store s') = Some r) ∨
       (∃ err, out = (None, Some err))).
Proof.
  intros Hrun.
  destruct (good_run w false cs _ s (good_NewClient getenv) Hrun)
    as (Hwf & Htidy & _ & _).
  split; [done|]. split; [done|].
  intros ctx target plainText isRestartConn. by apply GetResource_total.
Qed.

End Reachable.

(** ** Further properties of the methods *)
Section Further.
Context `{External} (w : World).

Lemma dial_events (g : Client.t) (tr : list Event) (ctx : Context)
    (target : string) (plainText : bool) :
  ∃ evs, (dial w g tr ctx target plainText).2 = tr ++ evs ∧
         Forall (acquire_event w g plainText ctx target) evs.
Proof.
  assert (∀ tr', dialNetwork g tr' = "tcp" ∨ dialNetwork g tr' = "unix")
    as Hnw.
  { intros tr'. unfold dialNetwork. destruct (Client.isUnixSocket g) as [f|];
      [destruct (f tr')|]; auto. }
  unfold dial. destruct plainText; simpl.
  - eexists [_]. split; [done|]. apply Forall_singleton. simpl.
    by repeat split.
  - assert (acquire_event w g false ctx target
              (ECredentials (Client.insecure g) (Client.cacert g)
                 (Client.cert g) (Client.key g))) as Hcred by done.
    assert (∀ c tr', acquire_event w g false ctx target
              (EDial (WithTimeout ctx dialTime) (dialNetwork g tr') target
                 (Some c) (dialOptions w g))) as Hdial.
    { intros c tr'. simpl. by repeat split. }
    destruct ClientTransportCredentials as [e|c]; simpl.
    { eexists [_]. split; [done|]. by apply Forall_singleton. }
    case_bool_decide.
    + destruct OverrideServerName as [e|c']; simpl.
      { eexists [_]. split; [done|]. by apply Forall_singleton. }
      eexists [_; _]. rewrite <- app_assoc. split; [done|].
      constructor; [done|]. constructor; [apply Hdial|constructor].
    + eexists [_; _]. rewrite <- app_assoc. split; [done|].
      constructor; [done|]. constructor; [apply Hdial|constructor].
Qed.

(** X2: the calls [GetResource] makes to the outside are closes of cache
    entries, at most a load of the client's own TLS material (never with
    [plainText]) and dials; every dial is for the requested target, under a
    context with the fixed 10 second timeout whatever the caller's context
    is, on the network tcp or unix, with the options of the client, and
    with credentials exactly when [plainText] is false.  Nothing is logged,
    persisted or invoked, and no sweep is started. *)
Theorem GetResource_outside_calls (ctx : Context) (target : string)
    (plainText isRestartConn : bool) (s : State)
    (out : option ptr * option Err) (s' : State) :
  GetResource w ctx target plainText isRestartConn s = Some (out, s') →
  extends (acquire_event w (client s) plainText ctx target) s s'.
Proof.
  intros [(r & res & Hc & Hr & -> & ->)|Heq]%GetResource_cases.
  - by apply extends_same.
  - replace s' with (openResource w ctx target plainText (beforeDial target s)).2
      by by rewrite <- Heq.
    eapply extends_trans; [by apply extends_beforeDial|].
    rewrite openResource_eq. cbv zeta.
    destruct (dial_events (client (beforeDial target s))
                (trace (beforeDial target s)) ctx target plainText)
      as (evs & Htr & HF).
    rewrite beforeDial_client in HF at 1.
    assert (Forall (acquire_event w (client s) plainText ctx target) evs)
      as HF'.
    { eapply Forall_impl; [exact HF|]. by intros []. }
    destruct (dial w _ _ ctx target plainText).1; by exists evs.
Qed.

(** X3: when TLS is asked for and the credentials cannot be built (the
    loader fails, or overriding the server name fails), an acquisition that
    does not reuse a cached Resource returns that error with no Resource,
    never reaches the network (no dial is made), and leaves the endpoint
    without a cache entry, the previous one having been closed. *)
Theorem credential_failure_aborts_acquisition (ctx : Context)
    (target : string) (isRestartConn : bool) (s : State) (err : Err) :
  wf s →
  reusable w target isRestartConn s = false →
  credentialError w (client s) (trace (beforeDial target s)) = Some err →
  ∃ s',
    GetResource w ctx target false isRestartConn s =
      Some ((None, Some err), s') ∧
    count is_dial (trace s') = count is_dial (trace s) ∧
    ConnStore.getConnection target (store s') = None.
Proof.
  intros Hwf Hre Herr.
  rewrite (GetResource_reopen w ctx target false isRestartConn s Hwf Hre).
  rewrite openResource_eq. cbv zeta.
  set (s0 := beforeDial target s) in *.
  assert (dial w (client s0) (trace s0) ctx target false =
          (inl err, trace s0 ++
                    [ECredentials (Client.insecure (client s))
                       (Client.cacert (client s)) (Client.cert (client s))
                       (Client.key (client s))])) as Hd.
  { unfold credentialError in Herr. unfold dial, s0.
    rewrite beforeDial_client. simpl.
    destruct ClientTransportCredentials as [e|c]; [by injection Herr as ->|].
    case_bool_decide; [|done].
    destruct OverrideServerName as [e|c']; [by injection Herr as ->|done]. }
  rewrite Hd. simpl. eexists. split; [done|]. simpl. split.
  - rewrite count_app. unfold s0. rewrite beforeDial_count by done.
    change (count is_dial [ECredentials _ _ _ _]) with 0%nat. lia.
  - pose proof (beforeDial_gone target s) as Hg. fold s0 in Hg.
    unfold ConnStore.getConnection, store in *. simpl. by rewrite Hg.
Qed.

(** X4: [GetActiveConns] returns every cached endpoint exactly once and
    nothing else.  It is empty after [CloseActiveConns "all"], it does not
    contain an endpoint that was just closed, and it contains an endpoint
    that was just acquired. *)
Theorem GetActiveConns_lists_cache (ctx : Context) (s : State) :
  NoDup (GetActiveConns ctx s) ∧
  length (GetActiveConns ctx s) = size (ConnStore.conn (store s)) ∧
  (∀ k, k ∈ GetActiveConns ctx s ↔
        is_Some (ConnStore.getConnection k (store s))) ∧
  GetActiveConns ctx (CloseActiveConns "all" s).1 = [] ∧
  (∀ host, host ∉ GetActiveConns ctx (CloseActiveConns host s).1) ∧
  (∀ ctx' target plainText isRestartConn r s',
     GetResource w ctx' target plainText isRestartConn s =
       Some ((Some r, None), s') →
     target ∈ GetActiveConns ctx s').
Proof.
  assert (∀ s0 k, k ∈ GetActiveConns ctx s0 ↔
                  is_Some (ConnStore.getConnection k (store s0))) as Hin.
  { intros s0 k. unfold GetActiveConns, ConnStore.getConnection,
      ConnStore.getAllConn.
    rewrite list_elem_of_fmap, fmap_is_Some. split.
    - intros ([k' e] & -> & He). apply elem_of_map_to_list in He. by exists e.
    - intros [e He]. exists (k, e). split; [done|].
      by apply elem_of_map_to_list. }
  split; [apply NoDup_fst_map_to_list|].
  split; [unfold GetActiveConns; by rewrite length_fmap, length_map_to_list|].
  split; [apply Hin|]. split; [|split].
  - unfold GetActiveConns, ConnStore.getAllConn.
    rewrite CloseActiveConns_conn. simpl. by rewrite map_to_list_empty.
  - intros host Hhost. apply Hin in Hhost as [r Hr].
    unfold ConnStore.getConnection in Hr.
    by rewrite CloseActiveConns_target_gone in Hr.
  - intros ctx' target plainText isRestartConn r s' HG. apply Hin.
    rewrite (GetResource_cached w ctx' target plainText isRestartConn s r s' HG).
    by eexists.
Qed.

Lemma beforeDial_other (target k : string) (s : State) :
  target ≠ "all" → k ≠ target →
  ConnStore.conn (store (beforeDial target s)) !! k =
  ConnStore.conn (store s) !! k.
Proof.
  intros Hall Hk. unfold beforeDial.
  destruct ConnStore.getConnection; [|done].
  rewrite CloseActiveConns_conn, bool_decide_eq_false_2 by done.
  by rewrite lookup_delete_ne.
Qed.

(** X5: an acquisition for an endpoint other than ["all"] leaves the cache
    entry of every other endpoint as it was, leaves the connection, the
    metadata and the descriptor set of every Resource other than the one
    cached for its endpoint as they were, and changes nothing of the client
    but its cache.  (The headers of the other Resources are left out: in Go
    they can share an array with the headers of the client.) *)
Theorem GetResource_leaves_other_endpoints (ctx : Context) (target : string)
    (plainText isRestartConn : bool) (s : State)
    (out : option ptr * option Err) (s' : State) :
  GetResource w ctx target plainText isRestartConn s = Some (out, s') →
  target ≠ "all" →
  (∀ k, k ≠ target →
        ConnStore.conn (store s') !! k = ConnStore.conn (store s) !! k) ∧
  (∀ q res, heap s !! q = Some res →
            ConnStore.getConnection target (store s) ≠ Some q →
            ∃ res', heap s' !! q = Some res' ∧
                    Resource.clientConn res' = Resource.clientConn res ∧
                    Resource.md res' = Resource.md res ∧
                    Resource.protos res' = Resource.protos res) ∧
  client s' = Client.set_activeConn (store s') (client s).
Proof.
  intros [(r & res & Hc & Hr & -> & ->)|Heq]%GetResource_cases Hall.
  - split; [done|]. split.
    + intros q x Hq Hne. exists x. split; [|done].
      simpl. rewrite lookup_insert_ne; [done|].
      intros <-. by rewrite Hc in Hne.
    + clear. by destruct s as [hp [] tr].
  - replace s' with (openResource w ctx target plainText (beforeDial target s)).2
      by by rewrite <- Heq.
    rewrite openResource_eq. cbv zeta.
    set (s0 := beforeDial target s).
    assert (∀ q x, heap s !! q = Some x →
                   <[fresh (dom (heap s0)) := x]> (heap s0) !! q = heap s !! q)
      as Hheap.
    { intros q x Hq. unfold s0. rewrite beforeDial_heap.
      apply lookup_insert_ne. intros <-.
      by rewrite fresh_ptr_unused in Hq. }
    destruct (dial w (client s0) (trace s0) ctx target plainText).1
      as [err|cc]; simpl.
    + split; [by intros k Hk; apply beforeDial_other|]. split.
      * intros q x Hq _. exists x. split; [|done].
        unfold s0. rewrite beforeDial_heap.
        rewrite lookup_insert_ne; [done|]. intros <-.
        by rewrite fresh_ptr_unused in Hq.
      * unfold s0. by rewrite beforeDial_client.
    + split; [|split].
      * intros k Hk. rewrite lookup_insert_ne by done.
        by apply beforeDial_other.
      * intros q x Hq _. exists x. split; [|done].
        unfold s0. rewrite beforeDial_heap.
        rewrite lookup_insert_ne; [done|]. intros <-.
        by rewrite fresh_ptr_unused in Hq.
      * unfold s0. by rewrite beforeDial_client.
Qed.

(** X6: the endpoint name ["all"] is not like the others.  When the cache
    holds a Resource under ["all"] that is not reused, acquiring ["all"]
    runs [CloseActiveConns "all"] and so drops the cache entry of every
    other endpoint as well. *)
Theorem reacquiring_all_drops_every_endpoint (ctx : Context)
    (plainText isRestartConn : bool) (s : State) :
  wf s →
  is_Some (ConnStore.getConnection "all" (store s)) →
  reusable w "all" isRestartConn s = false →
  ∃ out s',
    GetResource w ctx "all" plainText isRestartConn s = Some (out, s') ∧
    ∀ k, k ≠ "all" → ConnStore.getConnection k (store s') = None.
Proof.
  intros Hwf [r Hr] Hre.
  rewrite (GetResource_reopen w ctx "all" plainText isRestartConn s Hwf Hre).
  rewrite openResource_eq. cbv zeta.
  assert (ConnStore.conn (store (beforeDial "all" s)) = ∅) as Hempty.
  { unfold beforeDial. rewrite Hr. by rewrite CloseActiveConns_conn. }
  set (s0 := beforeDial "all" s) in *.
  destruct (dial w (client s0) (trace s0) ctx "all" plainText).1 as [err|cc];
    eexists _, _; (split; [done|]); intros k Hk.
  - change (ConnStore.resource <$> ConnStore.conn (store s0) !! k = None).
    by rewrite Hempty, lookup_empty.
  - unfold ConnStore.getConnection.
    cbn [store client Client.activeConn Client.set_activeConn
           ConnStore.addConnection ConnStore.conn].
    rewrite lookup_insert_ne by done.
    change (Client.activeConn (client s0)) with (store s0).
    by rewrite Hempty, lookup_empty.
Qed.

(** X7: closing is idempotent: a second [CloseActiveConns] for the same
    host (or a second ["all"]) changes nothing and closes nothing.  Closing
    leaves every Resource of the heap and every setting of the client as it
    was, and the only outside calls it makes are closes. *)
Theorem CloseActiveConns_idempotent (host : string) (s : State) :
  CloseActiveConns host (CloseActiveConns host s).1 = CloseActiveConns host s ∧
  heap (CloseActiveConns host s).1 = heap s ∧
  client (CloseActiveConns host s).1 =
    Client.set_activeConn (store (CloseActiveConns host s).1) (client s) ∧
  extends (λ e, is_close e = true) s (CloseActiveConns host s).1.
Proof.
  split; [|split; [apply CloseActiveConns_heap|
                   split; [apply CloseActiveConns_client|]]].
  - unfold CloseActiveConns. case_bool_decide; simpl.
    + unfold ConnStore.getAllConn. rewrite delete_keys_all_conn.
      by rewrite map_to_list_empty.
    + rewrite ConnStore_delete_absent; [done|].
      rewrite ConnStore_delete_conn. apply lookup_delete_eq.
  - unfold CloseActiveConns. case_bool_decide; simpl.
    + by apply extends_delete_keys.
    + by apply extends_ConnStore_delete.
Qed.

Lemma delete_keys_closes (ks : list string) (s : State) (k : string)
    (e : ConnStore.connection) :
  k ∈ ks →
  ConnStore.conn (store s) !! k = Some e →
  was_closed (delete_keys ks s) (ConnStore.resource e).
Proof.
  revert s. induction ks as [|k' ks IH]; intros s Hin He.
  - by apply elem_of_nil in Hin.
  - rewrite delete_keys_cons. destruct (decide (k' = k)) as [->|Hne].
    + destruct (extends_delete_keys (λ _, True) ks (ConnStore_delete k s))
        as (evs & Htr & _); [done|].
      apply (was_closed_app (ConnStore_delete k s) _ evs); [done|].
      unfold was_closed. rewrite ConnStore_delete_eq, He. simpl.
      apply elem_of_app. right. apply list_elem_of_here.
    + apply IH.
      * apply elem_of_cons in Hin as [?|?]; [congruence|done].
      * rewrite ConnStore_delete_conn. by rewrite lookup_delete_ne.
Qed.

Lemma beforeDial_closes (target : string) (s : State) (r0 : ptr) :
  ConnStore.getConnection target (store s) = Some r0 →
  was_closed (beforeDial target s) r0.
Proof.
  intros Hc. unfold beforeDial. rewrite Hc.
  unfold ConnStore.getConnection in Hc.
  destruct (ConnStore.conn (store s) !! target) as [e|] eqn:He; [|done].
  injection Hc as <-. unfold CloseActiveConns. case_bool_decide; simpl.
  - apply (delete_keys_closes _ s target e); [|done].
    apply list_elem_of_fmap. exists (target, e). split; [done|].
    by apply elem_of_map_to_list.
  - unfold was_closed. rewrite ConnStore_delete_eq, He. simpl.
    apply elem_of_app. right. apply list_elem_of_here.
Qed.

(** What [GetResource] returns from a well-formed state, and what it
    leaves. *)
Lemma GetResource_result (ctx : Context) (target : string)
    (plainText isRestartConn : bool) (s : State) :
  wf s →
  ∃ out s',
    GetResource w ctx target plainText isRestartConn s = Some (out, s') ∧
    ((∃ r res, out = (Some r, None) ∧
               ConnStore.getConnection target (store s') = Some r ∧
               heap s' !! r = Some res ∧
               Resource.headers res = combinedHeaders (client s)) ∨
     (∃ err, out = (None, Some err) ∧
             ConnStore.getConnection target (store s') = None ∧
             s' = (openResource w ctx target plainText
                     (beforeDial target s)).2)).
Proof.
  intros Hwf.
  destruct (reusable w target isRestartConn s) eqn:Hre.
  - unfold reusable in Hre.
    destruct (ConnStore.getConnection target (store s)) as [r|] eqn:Hc; [|done].
    destruct isRestartConn; [done|].
    destruct (heap s !! r) as [res|] eqn:Hr; [|done]. simpl in Hre.
    rewrite (GetResource_reuse w ctx target plainText s r res Hc Hr Hre).
    eexists _, _. split; [done|]. left. eexists r, _.
    split; [done|]. split; [done|]. simpl. by rewrite lookup_insert_eq.
  - rewrite (GetResource_reopen w ctx target plainText isRestartConn s Hwf Hre).
    pose proof (beforeDial_gone target s) as Hgone.
    pose proof (beforeDial_client target s) as Hcl.
    rewrite openResource_eq. cbv zeta.
    set (s0 := beforeDial target s) in *.
    destruct (dial w (client s0) (trace s0) ctx target plainText).1
      as [err|cc].
    + eexists _, _. split; [done|]. right. exists err.
      split; [done|]. split; [|done].
      change (ConnStore.resource <$> ConnStore.conn (store s0) !! target = None).
      by rewrite Hgone.
    + eexists _, _. split; [done|]. left. eexists _, _.
      split; [done|]. split; [|split].
      * unfold ConnStore.getConnection. simpl. by rewrite lookup_insert_eq.
      * simpl. by rewrite lookup_insert_eq.
      * simpl. by rewrite Hcl.
Qed.

(** X8: from a state in which every cache entry points to a Resource,
    [GetResource] returns, in one of two ways.  Either a Resource and no
    error: the Resource is then the cache entry of the endpoint and its
    headers are the client's current headers followed by its reflection
    headers, element by element.  Or an error and no Resource:
    the endpoint then has no cache entry at all, and the Resource it had
    before, if any, was closed, so a failed re-acquisition loses the old
    connection. *)
Theorem GetResource_outcome (ctx : Context) (target : string)
    (plainText isRestartConn : bool) (s : State) :
  wf s →
  ∃ out s',
    GetResource w ctx target plainText isRestartConn s = Some (out, s') ∧
    ((∃ r res, out = (Some r, None) ∧
               ConnStore.getConnection target (store s') = Some r ∧
               heap s' !! r = Some res ∧
               Resource.headers res =
                 append (Client.headers (client s))
                        (Client.reflectHeaders (client s)) ∧
               elems (Resource.headers res) =
                 elems (Client.headers (client s)) ++
                 elems (Client.reflectHeaders (client s))) ∨
     (∃ err, out = (None, Some err) ∧
             ConnStore.getConnection target (store s') = None ∧
             ∀ r0, ConnStore.getConnection target (store s) = Some r0 →
                   was_closed s' r0)).
Proof.
  intros Hwf.
  destruct (GetResource_result ctx target plainText isRestartConn s Hwf)
    as (out & s' & HG & [(r & res & Hout & Hc & Hr & Hh)|
                          (err & Hout & Hnone & Hs')]);
    exists out, s'; (split; [done|]).
  { left. exists r, res. repeat (split; [done|]).
    rewrite Hh. apply elems_append. }
  right. exists err. split; [done|]. split; [done|].
  intros r0 Hr0. rewrite Hs'.
  destruct (extends_openResource w ctx target plainText (beforeDial target s))
    as (evs & Htr & _).
  apply (was_closed_app (beforeDial target s) _ evs); [done|].
  by apply beforeDial_closes.
Qed.


(** X10: when persisting the descriptor set fails,
    [GetResourceWithProto] returns the acquired Resource together with the
    error, not nil.  The Resource stays the cache entry of the endpoint and
    its recorded set is not the new one, so the same call made again on the
    still valid Resource persists again instead of skipping. *)
Theorem persistence_failure_returns_resource_and_error (ctx : Context)
    (target : string) (plainText isRestartConn : bool) (ps : slice Proto)
    (s : State) (r : ptr) (s1 : State) (res : Resource.t) (err : Err) :
  GetResource w ctx target plainText isRestartConn s =
    Some ((Some r, None), s1) →
  heap s1 !! r = Some res →
  Resource.protos res ≠ ps →
  persist w (trace s1) r res ps = Some err →
  ∃ s2,
    GetResourceWithProto w ctx target plainText isRestartConn ps s =
      Some ((Some r, Some err), s2) ∧
    ConnStore.getConnection target (store s2) = Some r ∧
    heap s2 !! r = Some res ∧
    trace s2 = trace s1 ++ [EPersist r ps] ∧
    ∀ ctx' plainText',
      isValid w (trace s2) r res = true →
      ∃ err' s3,
        GetResourceWithProto w ctx' target plainText' false ps s2 =
          Some ((Some r, err'), s3) ∧
        count is_persist (trace s3) = S (count is_persist (trace s2)).
Proof.
  intros HG Hres Hne Hp.
  pose proof (GetResource_cached w ctx target plainText isRestartConn s r s1
                HG) as Hc.
  exists (emit (EPersist r ps) s1).
  split.
  { unfold GetResourceWithProto, GetResourceWithProto_with. rewrite HG, Hres.
    unfold DeepEqual. rewrite bool_decide_eq_false_2 by done.
    by rewrite (Resource_AddProtos_differ w r ps s1 res Hres Hne), Hp. }
  split; [done|]. split; [done|]. split; [done|].
  intros ctx' plainText' Hvalid.
  set (s2 := emit (EPersist r ps) s1) in *.
  set (res' := Resource.set_headers (combinedHeaders (client s2)) res).
  set (s2' := set_heap (<[r := res']> (heap s2)) s2).
  assert (heap s2' !! r = Some res') as Hr' by apply lookup_insert_eq.
  unfold GetResourceWithProto, GetResourceWithProto_with.
  rewrite (GetResource_reuse w ctx' target plainText' s2 r res Hc Hres Hvalid).
  fold res' s2'. rewrite Hr'.
  unfold DeepEqual. rewrite bool_decide_eq_false_2 by done.
  rewrite (Resource_AddProtos_differ w r ps s2' res' Hr' Hne).
  destruct (persist w (trace s2') r res' ps); eexists _, _;
    (split; [done|]); simpl; rewrite count_app;
    change (count is_persist [EPersist r ps]) with 1%nat; lia.
Qed.

(** X11: from a state in which every cache entry points to a Resource,
    [GetResourceWithProto] returns, in one of three ways and never with
    neither Resource nor error.  With a Resource and no error, the Resource
    is cached for the endpoint and its recorded descriptor set is the one
    supplied.  With a Resource and an error, persisting failed and the
    Resource is cached all the same.  With an error only, the acquisition
    failed, the endpoint is not cached and nothing was persisted. *)
Theorem GetResourceWithProto_outcome (ctx : Context) (target : string)
    (plainText isRestartConn : bool) (ps : slice Proto) (s : State) :
  wf s →
  ∃ out s',
    GetResourceWithProto w ctx target plainText isRestartConn ps s =
      Some (out, s') ∧
    match out with
    | (Some r, None) =>
        ConnStore.getConnection target (store s') = Some r ∧
        ∃ res, heap s' !! r = Some res ∧ Resource.protos res = ps
    | (Some r, Some _) =>
        ConnStore.getConnection target (store s') = Some r ∧
        count is_persist (trace s') = S (count is_persist (trace s))
    | (None, Some _) =>
        ConnStore.getConnection target (store s') = None ∧
        count is_persist (trace s') = count is_persist (trace s)
    | (None, None) => False
    end.
Proof.
  intros Hwf.
  destruct (GetResource_result ctx target plainText isRestartConn s Hwf)
    as (out & s1 & HG & Hout).
  assert (count is_persist (trace s1) = count is_persist (trace s)) as Hcnt.
  { apply (extends_count (acquisition_event plainText)).
    - by intros [].
    - by apply (extends_GetResource w ctx target plainText isRestartConn s out). }
  unfold GetResourceWithProto, GetResourceWithProto_with. rewrite HG.
  destruct Hout as [(r & res & -> & Hc & Hr & _)|(err & -> & Hnone & _)].
  - rewrite Hr. destruct (DeepEqual (Resource.protos res) ps) eqn:Hde.
    + eexists _, _. split; [done|]. split; [done|].
      exists res. split; [done|]. by apply DeepEqual_eq.
    + assert (Resource.protos res ≠ ps) as Hne.
      { intros Heq. apply DeepEqual_eq in Heq. congruence. }
      rewrite (Resource_AddProtos_differ w r ps s1 res Hr Hne).
      destruct (persist w (trace s1) r res ps) as [e|].
      * eexists _, _. split; [done|]. split; [done|].
        simpl. rewrite count_app, Hcnt.
        change (count is_persist [EPersist r ps]) with 1%nat. lia.
      * eexists _, _. split; [done|]. split; [done|].
        eexists. split; [apply lookup_insert_eq|done].
  - eexists _, _. split; [done|]. by split.
Qed.

(** X12: the [plainText] flag only matters when a connection is dialed.
    After an acquisition with any value of the flag (so also one that
    dialed with TLS), [Invoke] on the still valid Resource dials nothing:
    it logs, rewrites the headers of that same Resource, keeps its
    connection, and invokes on it. *)
Theorem Invoke_reuses_cached_connection (ctx ctx' : Context)
    (target service method data : string) (plainText isRestartConn : bool)
    (s : State) (r : ptr) (s1 : State) (res : Resource.t) :
  GetResource w ctx target plainText isRestartConn s =
    Some ((Some r, None), s1) →
  heap s1 !! r = Some res →
  isValid w (trace s1 ++ [ELog (invoke_log target service method data)])
    r res = true →
  ∃ out s2,
    Invoke w ctx' target service method data s1 = Some (out, s2) ∧
    trace s2 =
      trace s1 ++ [ELog (invoke_log target service method data);
                   EInvoke r ctx' (service +:+ "." +:+ method) data] ∧
    store s2 = store s1 ∧
    ∃ res2, heap s2 !! r = Some res2 ∧
            Resource.clientConn res2 = Resource.clientConn res ∧
            Resource.headers res2 = combinedHeaders (client s1).
Proof.
  intros HG Hres Hvalid.
  pose proof (GetResource_cached w ctx target plainText isRestartConn s r s1
                HG) as Hc.
  set (s1' := emit (ELog (invoke_log target service method data)) s1).
  unfold Invoke. fold s1'.
  rewrite (GetResource_reuse w ctx' target true s1' r res Hc Hres Hvalid).
  unfold Resource_Invoke. simpl. rewrite lookup_insert_eq.
  eexists _, _. split; [done|]. simpl.
  split; [by rewrite <- app_assoc|]. split; [done|].
  eexists. split; [apply lookup_insert_eq|done].
Qed.

Lemma wrap64_small (z : Z) : - 2 ^ 63 ≤ z < 2 ^ 63 → wrap64 z = z.
Proof. intros Hz. unfold wrap64. rewrite Z.mod_small; lia. Qed.

(** X13: [NewClient] computes its durations in 64-bit nanoseconds.  For a
    lifetime of 1 to 153722867 minutes and an interval of 1 to 9223372036
    seconds the client gets exactly that lifetime, which is positive, and
    the sweep gets exactly that interval; one minute more and the lifetime
    wraps around to a negative duration although the sweep is started. *)
Theorem NewClient_durations_in_range (getenv : string → string) :
  let maxLife := envInt getenv "MAX_LIFE_CONN" 10 in
  let tick := envInt getenv "TICK_CLOSE_CONN" 3 in
  0 < maxLife ≤ 153722867 →
  0 < tick ≤ 9223372036 →
  Client.maxLifeConn (client (NewClient getenv)) = maxLife * 60000000000 ∧
  0 < Client.maxLifeConn (client (NewClient getenv)) ∧
  ConnStore.gc (store (NewClient getenv)) = Some (tick * 1000000000) ∧
  mulDuration 153722868 Minute < 0.
Proof.
  intros maxLife tick Hm Ht. unfold NewClient. fold maxLife tick.
  rewrite (proj2 (Z.ltb_lt 0 maxLife)), (proj2 (Z.ltb_lt 0 tick)) by lia.
  split; [|split; [|split]]; simpl; unfold mulDuration, Minute, Second.
  - rewrite wrap64_small; lia.
  - rewrite wrap64_small; lia.
  - rewrite wrap64_small; [done|lia].
  - done.
Qed.

(** X14: header calls compose on the contents of the client's header
    list.  Two [AddHeaders] in a row leave the client with the list that one
    [AddHeaders] of the two lists appended leaves; [AddHeaders] after
    [ClearHeaders] or [SetHeaders] gives the list set followed by the one
    added; [AddHeaders] of a nil or empty list changes nothing at all; no
    header call touches the cache or the trace, or the connection, the
    metadata or the descriptor set of a Resource.  (Nothing is said of the
    headers of a Resource: in Go they can share an array with the list
    [AddHeaders] appends to.) *)
Theorem header_calls_compose (s : State) (a b x : slice string) :
  Client.headers (client (AddHeaders b (AddHeaders a s))) =
    Client.headers (client (AddHeaders (append a b) s)) ∧
  elems (Client.headers (client (AddHeaders b (AddHeaders a s)))) =
    elems (Client.headers (client s)) ++ elems a ++ elems b ∧
  elems (Client.headers (client (AddHeaders a (ClearHeaders x s)))) =
    elems a ∧
  elems (Client.headers (client (AddHeaders b (SetHeaders a s)))) =
    elems a ++ elems b ∧
  (elems a = [] → AddHeaders a s = s) ∧
  (∀ (q : ptr) (res : Resource.t) (s' : State),
     s' = AddHeaders a s ∨ s' = SetHeaders a s ∨ s' = ClearHeaders a s →
     heap s !! q = Some res →
     ∃ res', heap s' !! q = Some res' ∧
             Resource.clientConn res' = Resource.clientConn res ∧
             Resource.md res' = Resource.md res ∧
             Resource.protos res' = Resource.protos res) ∧
  store (AddHeaders a s) = store s ∧
  trace (AddHeaders a s) = trace s ∧
  store (SetHeaders a s) = store s ∧
  trace (SetHeaders a s) = trace s ∧
  store (ClearHeaders a s) = store s ∧
  trace (ClearHeaders a s) = trace s.
Proof.
  assert (∀ h : slice string, append (append h a) b = append h (append a b))
    as Hassoc.
  { intros [h|]; destruct a as [[|y a]|], b as [[|z b]|]; simpl;
      rewrite ?app_nil_r, <- ?app_assoc; done. }
  split.
  { unfold AddHeaders. simpl. by rewrite Hassoc. }
  unfold AddHeaders, SetHeaders, ClearHeaders.
  cbn [client set_client Client.headers Client.set_headers].
  split; [by rewrite !elems_append, app_assoc|].
  split; [by rewrite elems_append|].
  split; [by rewrite elems_append|].
  split; [|split; [|done]].
  - intros Ha.
    assert (append (Client.headers (client s)) a = Client.headers (client s))
      as ->.
    { unfold append. rewrite Ha. destruct (Client.headers (client s)); [|done].
      by rewrite app_nil_r. }
    by destruct s as [hp [] tr].
  - intros q res s' [->| [->| ->]] Hq; by exists res.
Qed.

End Further.

(** ** Configuration from the environment, and the cache without a sweep *)
Section Configuration.
Context `{External} (w : World).

Lemma digit_of_digit_char (d : Z) :
  0 ≤ d ≤ 9 → digit_of (digit_char d) = Some d.
Proof.
  intros Hd.
  assert (d = 0 ∨ d = 1 ∨ d = 2 ∨ d = 3 ∨ d = 4 ∨ d = 5 ∨ d = 6 ∨ d = 7 ∨
          d = 8 ∨ d = 9) as Hc by lia.
  repeat (destruct Hc as [->|Hc]; [reflexivity|]). by subst d.
Qed.

Lemma digits_acc_decimal (ds : list Z) (acc : Z) :
  Forall (λ d, 0 ≤ d ≤ 9) ds →
  digits_acc (decimal ds) acc =
  Some (fold_left (λ acc d, 10 * acc + d) ds acc).
Proof.
  intros Hds. revert acc.
  induction Hds as [|d ds Hd _ IH]; intros acc; [done|].
  simpl. rewrite (digit_of_digit_char d Hd). apply IH.
Qed.

Lemma fold_digits_nonneg (ds : list Z) (acc : Z) :
  Forall (λ d, 0 ≤ d ≤ 9) ds → 0 ≤ acc →
  0 ≤ fold_left (λ acc d, 10 * acc + d) ds acc.
Proof.
  intros Hds. revert acc.
  induction Hds as [|d ds Hd _ IH]; intros acc Hacc; [done|].
  simpl. apply IH. lia.
Qed.

Lemma unsigned_digits_decimal (ds : list Z) :
  digits ds → unsigned_digits (decimal ds) = Some (decimal_value ds).
Proof.
  intros [Hne Hds]. destruct ds as [|d ds]; [done|].
  change (digits_acc (decimal (d :: ds)) 0 = Some (decimal_value (d :: ds))).
  by apply digits_acc_decimal.
Qed.

(** A text that does not start with a sign is read as digits. *)
Lemma Atoi_unsigned (s : string) :
  (∀ rest, s ≠ String "-" rest) →
  (∀ rest, s ≠ String "+" rest) →
  Atoi s = match unsigned_digits s with
           | Some z => if in_int64 z then Some z else None
           | None => None
           end.
Proof.
  intros Hm Hp. destruct s as [|c rest]; [done|].
  destruct c as [[] [] [] [] [] [] [] []];
    first [reflexivity | by destruct (Hm rest) | by destruct (Hp rest)].
Qed.

Lemma Atoi_decimal (ds : list Z) :
  digits ds →
  Atoi (decimal ds) =
  if decimal_value ds <? 2 ^ 63 then Some (decimal_value ds) else None.
Proof.
  intros Hds.
  assert (0 ≤ decimal_value ds) as Hpos
    by (apply fold_digits_nonneg; [by destruct Hds|done]).
  rewrite Atoi_unsigned.
  - rewrite (unsigned_digits_decimal ds Hds). unfold in_int64.
    destruct (decimal_value ds <? 2 ^ 63); [|by rewrite andb_false_r].
    rewrite andb_true_r. by rewrite (proj2 (Z.leb_le _ _)) by lia.
  - destruct Hds as [Hne Hds]. destruct Hds as [|d ds Hd _]; [done|].
    intros rest [= Hc _]. pose proof (digit_of_digit_char d Hd) as Hdig.
    by rewrite Hc in Hdig.
  - destruct Hds as [Hne Hds]. destruct Hds as [|d ds Hd _]; [done|].
    intros rest [= Hc _]. pose proof (digit_of_digit_char d Hd) as Hdig.
    by rewrite Hc in Hdig.
Qed.

Lemma Atoi_minus_decimal (ds : list Z) :
  digits ds →
  Atoi (String "-" (decimal ds)) =
  if decimal_value ds <=? 2 ^ 63 then Some (- decimal_value ds) else None.
Proof.
  intros Hds.
  assert (0 ≤ decimal_value ds) as Hpos
    by (apply fold_digits_nonneg; [by destruct Hds|done]).
  change (match Z.opp <$> unsigned_digits (decimal ds) with
          | Some z => if in_int64 z then Some z else None
          | None => None
          end = if decimal_value ds <=? 2 ^ 63
                then Some (- decimal_value ds) else None).
  rewrite (unsigned_digits_decimal ds Hds). simpl. unfold in_int64.
  rewrite (proj2 (Z.ltb_lt (- decimal_value ds) (2 ^ 63))) by lia.
  rewrite andb_true_r.
  destruct (Z.leb_spec (decimal_value ds) (2 ^ 63));
    destruct (Z.leb_spec (- 2 ^ 63) (- decimal_value ds)); try done; lia.
Qed.

Lemma Atoi_not_a_number (c : ascii) (rest : string) :
  digit_of c = None → c ≠ "-"%char → c ≠ "+"%char →
  Atoi (String c rest) = None.
Proof.
  intros Hc Hm Hp. rewrite Atoi_unsigned; [|congruence..].
  simpl. by rewrite Hc.
Qed.

(** What [NewClient] reads from an environment variable. *)
Lemma envInt_parsed (getenv : string → string) (name : string) (dflt : Z) :
  parsed_or_default (getenv name) dflt (envInt getenv name dflt).
Proof.
  unfold envInt. repeat split.
  - by intros ->.
  - intros c rest -> Hc Hm Hp. by rewrite Atoi_not_a_number.
  - intros ds Hds ->. rewrite (Atoi_decimal ds Hds). by destruct (_ <? _).
  - intros ds Hds ->. rewrite (Atoi_minus_decimal ds Hds).
    by destruct (_ <=? _).
Qed.

Lemma openResource_other (ctx : Context) (target : string) (plainText : bool)
    (s : State) (k : string) :
  k ≠ target →
  ConnStore.conn (store (openResource w ctx target plainText s).2) !! k =
  ConnStore.conn (store s) !! k.
Proof.
  intros Hk. rewrite openResource_eq. cbv zeta.
  destruct (dial w (client s) (trace s) ctx target plainText).1; simpl;
    [done|].
  by rewrite lookup_insert_ne.
Qed.

(** An acquisition takes the Resource of an endpoint out of the cache only
    when it is called for that endpoint or for ["all"], does not reuse, and
    so runs [CloseActiveConns], which closes it. *)
Lemma GetResource_entry_leaves (ctx : Context) (target : string)
    (plainText isRestartConn : bool) (s : State)
    (out : option ptr * option Err) (s' : State) (k : string) (r : ptr) :
  GetResource w ctx target plainText isRestartConn s = Some (out, s') →
  ConnStore.getConnection k (store s) = Some r →
  ConnStore.getConnection k (store s') ≠ Some r →
  (target = k ∨ target = "all") ∧ was_closed s' r.
Proof.
  intros [(r' & res & Hc & Hr & -> & ->)|Heq]%GetResource_cases Hk Hne;
    [done|].
  assert (s' = (openResource w ctx target plainText (beforeDial target s)).2)
    as -> by by rewrite <- Heq.
  destruct (extends_openResource w ctx target plainText (beforeDial target s))
    as (evs & Htr & _).
  destruct (decide (target = k)) as [->|Htk].
  { split; [by left|].
    apply (was_closed_app (beforeDial k s) _ evs); [done|].
    by apply beforeDial_closes. }
  assert (ConnStore.getConnection k (store (beforeDial target s)) ≠ Some r)
    as Hne0.
  { intros Hk0. apply Hne. unfold ConnStore.getConnection in *.
    by rewrite openResource_other. }
  destruct (decide (target = "all")) as [->|Hall].
  - split; [by right|].
    apply (was_closed_app (beforeDial "all" s) _ evs); [done|].
    unfold beforeDial in *.
    destruct (ConnStore.getConnection "all" (store s)); [|done].
    unfold ConnStore.getConnection in Hk.
    destruct (ConnStore.conn (store s) !! k) as [e|] eqn:He; [|done].
    injection Hk as <-. unfold CloseActiveConns.
    rewrite bool_decide_eq_true_2 by done. simpl.
    apply (delete_keys_closes _ s k e); [|done].
    apply list_elem_of_fmap. exists (k, e). split; [done|].
    by apply elem_of_map_to_list.
  - exfalso. apply Hne0. unfold ConnStore.getConnection in *.
    by rewrite beforeDial_other.
Qed.

(** Without a sweep, the Resource of an endpoint leaves the cache only in a
    call that runs [CloseActiveConns] for that endpoint or for ["all"], and
    it is then closed. *)
Lemma entry_leaves_by_close (c : Call) (s s' : State) (k : string) (r : ptr) :
  ConnStore.gc (store s) = None →
  perform w c s = Some s' →
  ConnStore.getConnection k (store s) = Some r →
  ConnStore.getConnection k (store s') ≠ Some r →
  closes_endpoint c k = true ∧ was_closed s' r.
Proof.
  intros Hgc Hp Hk Hne.
  destruct (may_close c) eqn:Hq.
  2: { exfalso. apply Hne.
       by rewrite (quiet_call_keeps_entries w c s s' k Hgc Hq Hp). }
  destruct c; try done; simpl in Hp.
  - unfold Invoke in Hp.
    destruct (GetResource w ctx target true false
                (emit (ELog (invoke_log target service method data)) s))
      as [[[[r1|] [e|]] s1]|] eqn:HG; simpl in Hp; try done.
    + injection Hp as <-.
      destruct (GetResource_entry_leaves _ _ _ _ _ _ _ k r HG Hk Hne)
        as [Ht Hcl].
      split; [by apply bool_decide_eq_true_2|done].
    + unfold Resource_Invoke in Hp.
      destruct (heap s1 !! r1); [|done]. injection Hp as <-.
      destruct (GetResource_entry_leaves _ _ _ _ _ _ _ k r HG Hk Hne)
        as [Ht Hcl].
      split; [by apply bool_decide_eq_true_2|].
      by apply (was_closed_app s1 _ [EInvoke r1 ctx (service +:+ "." +:+ method) data]).
    + injection Hp as <-.
      destruct (GetResource_entry_leaves _ _ _ _ _ _ _ k r HG Hk Hne)
        as [Ht Hcl].
      split; [by apply bool_decide_eq_true_2|done].
  - destruct (GetResource w ctx target plainText isRestartConn s)
      as [[out s1]|] eqn:HG; [|done]. injection Hp as <-.
    destruct (GetResource_entry_leaves _ _ _ _ _ _ _ k r HG Hk Hne)
      as [Ht Hcl].
    split; [by apply bool_decide_eq_true_2|done].
  - unfold GetResourceWithProto, GetResourceWithProto_with in Hp.
    destruct (GetResource w ctx target plainText isRestartConn s)
      as [[[[r1|] [e|]] s1]|] eqn:HG; simpl in Hp; try done.
    + injection Hp as <-.
      destruct (GetResource_entry_leaves _ _ _ _ _ _ _ k r HG Hk Hne)
        as [Ht Hcl].
      split; [by apply bool_decide_eq_true_2|done].
    + destruct (heap s1 !! r1) as [res1|] eqn:Hr1; [|done].
      destruct (DeepEqual (Resource.protos res1) protos).
      * injection Hp as <-.
        destruct (GetResource_entry_leaves _ _ _ _ _ _ _ k r HG Hk Hne)
          as [Ht Hcl].
        split; [by apply bool_decide_eq_true_2|done].
      * unfold Resource_AddProtos in Hp. rewrite Hr1 in Hp.
        destruct (DeepEqual (Resource.protos res1) protos);
          [|destruct (persist w (trace s1) r1 res1 protos)];
          injection Hp as <-;
          destruct (GetResource_entry_leaves _ _ _ _ _ _ _ k r HG Hk Hne)
            as [Ht Hcl];
          (split; [by apply bool_decide_eq_true_2|]); try done.
        all: by apply (was_closed_app s1 _ [EPersist r1 protos]).
    + injection Hp as <-.
      destruct (GetResource_entry_leaves _ _ _ _ _ _ _ k r HG Hk Hne)
        as [Ht Hcl].
      split; [by apply bool_decide_eq_true_2|done].
  - injection Hp as <-.
    unfold ConnStore.getConnection in Hk, Hne.
    destruct (ConnStore.conn (store s) !! k) as [e|] eqn:He; [|done].
    injection Hk as <-.
    destruct (decide (host = "all")) as [->|Hall].
    + split; [by apply bool_decide_eq_true_2; right|].
      unfold CloseActiveConns. rewrite bool_decide_eq_true_2 by done. simpl.
      apply (delete_keys_closes _ s k e); [|done].
      apply list_elem_of_fmap. exists (k, e). split; [done|].
      by apply elem_of_map_to_list.
    + destruct (decide (host = k)) as [->|Hhk].
      * split; [by apply bool_decide_eq_true_2; left|].
        unfold CloseActiveConns. rewrite bool_decide_eq_false_2 by done.
        simpl. unfold was_closed. rewrite ConnStore_delete_eq, He. simpl.
        apply elem_of_app. right. apply list_elem_of_here.
      * exfalso. apply Hne.
        rewrite CloseActiveConns_conn, bool_decide_eq_false_2 by done.
        rewrite lookup_delete_ne by done. by rewrite He.
Qed.

(** C3 (amended): [NewClient] takes the maximum lifetime (in minutes, 10
    by default) and the sweep interval (in seconds, 3 by default) from
    MAX_LIFE_CONN and TICK_CLOSE_CONN: a decimal numeral in the variable,
    with or without a minus sign, overrides the default with its value, an
    unset or non-numeric variable leaves the default.  [StartGC] is called
    exactly when both are positive, and then the lifetime of the client is
    that many minutes: ten minutes and a sweep every three seconds by
    default.  When one of them is not positive the lifetime of the client
    stays zero and no sweep is started, then or later: whatever calls
    follow, the sweep timer never changes the state and no entry ever
    carries an expiry time.  The Resource of an endpoint then leaves the
    cache only in a call that runs [CloseActiveConns] for that endpoint or
    for ["all"], which closes it: [CloseActiveConns] itself, or an
    acquisition ([GetResource], [GetResourceWithProto], [Invoke]) that does
    not reuse the Resource. *)
Theorem C3_NewClient_sweep (getenv : string → string) :
  let maxLife := envInt getenv "MAX_LIFE_CONN" 10 in
  let tick := envInt getenv "TICK_CLOSE_CONN" 3 in
  let s := NewClient getenv in
  parsed_or_default (getenv "MAX_LIFE_CONN") 10 maxLife ∧
  parsed_or_default (getenv "TICK_CLOSE_CONN") 3 tick ∧
  mulDuration 10 Minute = 600000000000 ∧
  mulDuration 3 Second = 3000000000 ∧
  (is_Some (ConnStore.gc (store s)) ↔ 0 < maxLife ∧ 0 < tick) ∧
  (count is_startGC (trace s) = 1%nat ↔ 0 < maxLife ∧ 0 < tick) ∧
  (0 < maxLife ∧ 0 < tick →
     Client.maxLifeConn (client s) = mulDuration maxLife Minute ∧
     ConnStore.gc (store s) = Some (mulDuration tick Second) ∧
     trace s = [EStartGC (mulDuration tick Second)]) ∧
  (¬ (0 < maxLife ∧ 0 < tick) →
     Client.maxLifeConn (client s) = 0 ∧
     ConnStore.gc (store s) = None ∧
     trace s = [] ∧
     ∀ cs s', run w cs s = Some s' →
       sweep w s' = s' ∧
       never_swept s' ∧
       run w (filter (λ c, is_tick c = false) cs) s = Some s' ∧
       (∀ c s'' k, may_close c = false → perform w c s' = Some s'' →
          ConnStore.getConnection k (store s'') =
          ConnStore.getConnection k (store s')) ∧
       (∀ c s'' k r, perform w c s' = Some s'' →
          ConnStore.getConnection k (store s') = Some r →
          ConnStore.getConnection k (store s'') ≠ Some r →
          closes_endpoint c k = true ∧ was_closed s'' r)).
Proof.
  intros maxLife tick s.
  split; [apply envInt_parsed|]. split; [apply envInt_parsed|].
  split; [done|]. split; [done|].
  assert (0 < maxLife ∧ 0 < tick →
          Client.maxLifeConn (client s) = mulDuration maxLife Minute ∧
          ConnStore.gc (store s) = Some (mulDuration tick Second) ∧
          trace s = [EStartGC (mulDuration tick Second)]) as Hpos.
  { intros [H1 H2]. unfold s, NewClient. fold maxLife tick.
    by rewrite (proj2 (Z.ltb_lt 0 maxLife) H1), (proj2 (Z.ltb_lt 0 tick) H2). }
  assert (¬ (0 < maxLife ∧ 0 < tick) →
          s = {| heap := ∅; client := Client.zero ConnStore.NewConnectionStore;
                 trace := [] |}) as Hneg
    by apply never_swept_NewClient.
  split; [|split; [|split; [done|]]].
  - split.
    + intros Hsome. destruct (decide (0 < maxLife ∧ 0 < tick)) as [|Hn]; [done|].
      rewrite (Hneg Hn) in Hsome. by destruct Hsome.
    + intros Hp. destruct (Hpos Hp) as (_ & -> & _). by eexists.
  - split.
    + intros Hone. destruct (decide (0 < maxLife ∧ 0 < tick)) as [|Hn]; [done|].
      by rewrite (Hneg Hn) in Hone.
    + intros Hp. destruct (Hpos Hp) as (_ & _ & ->). done.
  - intros Hn. rewrite (Hneg Hn).
    assert (good true
              {| heap := ∅; client := Client.zero ConnStore.NewConnectionStore;
                 trace := [] |}) as Hg0 by by apply good_empty.
    split; [done|]. split; [done|]. split; [done|].
    intros cs s' Hrun.
    pose proof (good_run w true cs _ s' Hg0 Hrun) as (_ & _ & _ & Hns).
    specialize (Hns eq_refl).
    split; [apply sweep_never_started; by destruct Hns|].
    split; [done|]. split; [by rewrite run_without_ticks|]. split.
    + intros c s'' k Hq Hp.
      apply (quiet_call_keeps_entries w c s' s'' k); [by destruct Hns|done..].
    + intros c s'' k r Hp Hk Hne.
      apply (entry_leaves_by_close c s' s'' k r); [by destruct Hns|done..].
Qed.

End Configuration.

(** ** The statements on the concrete world *)
Section ScenarioRuns.
Import Scenario.

Lemma scenario_s1_good : good false s1.
Proof.
  assert (good false s0) as Hg0.
  { apply (good_frame false (NewClient no_env) _ []); try done.
    apply good_NewClient. }
  unfold s1.
  destruct (GetResource world Background "svcA" true false s0)
    as [[out s']|] eqn:HG; [|done].
  by apply (good_GetResource world false _ _ _ _ _ _ _ Hg0 HG).
Qed.

Lemma C1_reuse_cached_witness :
  ∃ s' res',
    GetResource world Background "svcA" true false s2 =
      Some ((Some 1%positive, None), s') ∧
    trace s' = trace s2 ∧
    heap s' !! 1%positive = Some res' ∧
    Resource.headers res' = Some ["authorization: two"; "x-trace: 1"].
Proof.
  destruct (C1_reuse_cached world Background "svcA" true s2 1%positive res1)
    as (s' & res' & HG & Htr & _ & _ & Hr & Hh & _);
    [vm_compute; reflexivity ..|].
  exists s', res'. repeat split; [exact HG|exact Htr|exact Hr|].
  rewrite Hh. vm_compute. reflexivity.
Defined.

Lemma C8_reuse_writes_headers_only_witness :
  ∃ s' res',
    GetResource world Background "svcA" true false s2 =
      Some ((Some 1%positive, None), s') ∧
    heap s' !! 1%positive = Some res' ∧
    Resource.md res' = Some ["authorization: one"] ∧
    Resource.headers res' = Some ["authorization: two"; "x-trace: 1"].
Proof.
  destruct (C8_reuse_writes_headers_only world Background "svcA" true s2
              1%positive res1)
    as (s' & res' & HG & Hr & Hmd & _ & _ & Hh & _);
    [vm_compute; reflexivity ..|].
  exists s', res'. repeat split; [exact HG|exact Hr|exact Hmd|].
  rewrite Hh. vm_compute. reflexivity.
Defined.

Lemma C2_reacquire_witness :
  reusable world "svcA" true s_reflect = false ∧
  ∃ r res s',
    GetResource world Background "svcA" true true s_reflect =
      Some ((Some r, None), s') ∧
    heap s_reflect !! r = None ∧
    heap s' !! r = Some res ∧
    elems (Resource.headers res) =
      ["authorization: two"; "x-trace: 1"; "x-reflect: 1"] ∧
    Resource.md res =
      Some ["authorization: two"; "x-trace: 1"; "x-reflect: 1"] ∧
    ConnStore.getConnection "svcA" (store s') = Some r ∧
    count is_dial (trace s') = (count is_dial (trace s_reflect) + 1)%nat.
Proof.
  split; [vm_compute; reflexivity|].
  pose proof (C2_reacquire world Background "svcA" true true s_reflect
                (proj1 scenario_s1_good) eq_refl) as HC.
  cbv zeta in HC. destruct HC as (_ & out & s' & HG & _ & _ & Hcase).
  assert ((dial world (client (beforeDial "svcA" s_reflect))
             (trace (beforeDial "svcA" s_reflect)) Background "svcA" true).1 =
          inr 3%nat) as Hd by (vm_compute; reflexivity).
  rewrite Hd in Hcase.
  destruct Hcase as (r & res & Hout & Hnew & Hr & Hres & Hh & Hconn & Hcnt).
  exists r, res, s'. rewrite Hout in HG.
  split; [exact HG|]. split; [exact Hnew|]. split; [exact Hr|].
  split; [rewrite Hh; vm_compute; reflexivity|].
  split; [rewrite Hres; vm_compute; reflexivity|].
  split; [|exact Hcnt].
  unfold ConnStore.getConnection. rewrite Hconn, lookup_insert_eq. reflexivity.
Defined.

Lemma C3_NewClient_sweep_witness :
  envInt env_5_2 "MAX_LIFE_CONN" 10 = 5 ∧
  envInt env_5_2 "TICK_CLOSE_CONN" 3 = 2 ∧
  envInt env_off "MAX_LIFE_CONN" 10 = 0 ∧
  envInt env_off "TICK_CLOSE_CONN" 3 = 3 ∧
  ConnStore.gc (store (NewClient env_5_2)) = Some 2000000000 ∧
  ConnStore.gc (store (NewClient env_off)) = None.
Proof.
  pose proof (C3_NewClient_sweep world env_5_2) as H52.
  pose proof (C3_NewClient_sweep world env_off) as Hoff.
  cbv zeta in H52, Hoff.
  destruct H52 as ((_ & _ & Hmax & _) & (_ & _ & Htick & _) & _ & _ & _ & _ &
                   Hpos & _).
  destruct Hoff as ((_ & _ & Hmax0 & _) & (Htick0 & _) & _ & _ & _ & _ & _ &
                    Hneg).
  assert (∀ d, 0 ≤ d ≤ 9 → digits [d]) as Hdig.
  { intros d Hd. split; [discriminate|]. constructor; [exact Hd|constructor]. }
  assert (envInt env_5_2 "MAX_LIFE_CONN" 10 = 5) as E1
    by exact (Hmax [5] (Hdig 5 ltac:(lia)) eq_refl).
  assert (envInt env_5_2 "TICK_CLOSE_CONN" 3 = 2) as E2
    by exact (Htick [2] (Hdig 2 ltac:(lia)) eq_refl).
  assert (envInt env_off "MAX_LIFE_CONN" 10 = 0) as E3
    by exact (Hmax0 [0] (Hdig 0 ltac:(lia)) eq_refl).
  assert (envInt env_off "TICK_CLOSE_CONN" 3 = 3) as E4
    by exact (Htick0 eq_refl).
  split; [exact E1|]. split; [exact E2|]. split; [exact E3|].
  split; [exact E4|]. split.
  - destruct Hpos as (_ & Hgc & _); [rewrite E1, E2; lia|].
    rewrite Hgc, E2. reflexivity.
  - destruct Hneg as (_ & Hgc & _); [rewrite E3; lia|]. exact Hgc.
Defined.

Lemma C5_Invoke_delegates_witness :
  ∃ out s',
    GetResource world Background "svcA" true false
      (emit (ELog (invoke_log "svcA" "pkg.Greeter" "Hello" "{}")) s1) =
      Some (out, s') ∧
    count is_invoke (trace s') = count is_invoke (trace s1).
Proof.
  destruct (C5_Invoke_delegates world Background "svcA" "pkg.Greeter" "Hello"
              "{}" s1 (proj1 scenario_s1_good))
    as (out & s' & HG & Hcnt & _).
  exists out, s'. split; [exact HG|exact Hcnt].
Defined.

Lemma C4_descriptors_persisted_at_most_once_witness :
  (∃ err s',
     GetResourceWithProto world Background "svcA" true false one_proto s0 =
       Some ((Some 1%positive, err), s') ∧
     trace s' = trace s1 ++ [EPersist 1%positive one_proto]) ∧
  GetResourceWithProto_with world
    (λ r ps s, Some (None, emit (EPersist r ps) s))
    Background "svcA" true false None s0 =
    Some ((Some 1%positive, None), s1).
Proof.
  split.
  - destruct (C4_descriptors_persisted_at_most_once world Background "svcA"
                true false one_proto s0 1%positive s1 res1)
      as (_ & _ & _ & Hdiff & _); [vm_compute; reflexivity ..|].
    destruct Hdiff as (err & s' & _ & HG & Htr); [discriminate|].
    exists err, s'. split; [exact HG|exact Htr].
  - destruct (C4_descriptors_persisted_at_most_once world Background "svcA"
                true false None s0 1%positive s1 res1)
      as (_ & _ & Hany & _); [vm_compute; reflexivity ..|].
    exact (Hany _).
Defined.

(** C4, as stated, fails: a nil descriptor set is already the recorded set
    of a new Resource, so two calls in a row with it persist nothing. *)
Lemma C4_nil_set_never_persisted : ¬ persists_exactly_once world.
Proof.
  intros Hc.
  specialize (Hc Background "svcA" true false None s0 s1 s3 1%positive).
  assert (count is_persist (trace s3) = S (count is_persist (trace s0))) as Hn.
  { apply Hc; vm_compute; reflexivity. }
  vm_compute in Hn. discriminate.
Qed.

(** C3, as stated, fails: on a client without a sweep, an acquisition that
    finds the cached Resource invalid and whose dial is refused takes the
    endpoint out of the cache, although nobody called [CloseActiveConns] or
    asked for a restart. *)
Lemma C3_unhealthy_entry_dropped : ¬ cached_until_closed world_once.
Proof.
  intros Hc.
  specialize (Hc env_off [CallGetResource Background "svcA" true false]
                (CallGetResource Background "svcA" true false)
                s_once s_lost "svcA").
  assert (is_Some (ConnStore.getConnection "svcA" (store s_lost))) as [x Hx].
  { apply Hc.
    - intros [Hm _]. vm_compute in Hm. discriminate.
    - vm_compute; reflexivity.
    - discriminate.
    - vm_compute; reflexivity.
    - exists 1%positive. vm_compute. reflexivity. }
  vm_compute in Hx. discriminate.
Qed.

Lemma C7_unserialized_acquisitions_orphan_witness :
  ∃ r2 s',
    raced =
      Some {| goA := Returned (Some 1%positive, None);
              goB := Returned (Some r2, None);
              shared := s' |} ∧
    orphan s' 1%positive.
Proof.
  edestruct (C7_unserialized_acquisitions_orphan world call_svcA call_svcA
               (NewClient no_env))
    as (_ & _ & r2 & s' & Hrace & _ & _ & Horphan).
  - apply good_NewClient.
  - reflexivity.
  - vm_compute. reflexivity.
  - vm_compute. reflexivity.
  - vm_compute. reflexivity.
  - exists r2, s'. split; [exact Hrace|exact Horphan].
Defined.

(** C7, as stated, fails: on a new client, two calls for ["svcA"] that
    alternate step by step leave the first Resource an orphan. *)
Lemma C7_race_leaves_orphan : ¬ never_orphans world.
Proof.
  intros Hno.
  edestruct (race_orphans world call_svcA call_svcA (NewClient no_env))
    as (r2 & s' & Hrace & _ & _ & Hcon & Hnc & Hncl).
  - apply good_NewClient.
  - reflexivity.
  - vm_compute. reflexivity.
  - vm_compute. reflexivity.
  - vm_compute. reflexivity.
  - pose proof (Hno no_env Background Background "svcA" true true false false
                  _ _ _ s' Hrace) as Htidy.
    destruct (Htidy _ Hcon) as [Hc|Hc]; [by apply Hnc|by apply Hncl].
Qed.

Lemma reachable_states_are_sound_witness : wf s3 ∧ tidy s3.
Proof.
  destruct (reachable_states_are_sound world no_env
              [CallSetHeaders (Some ["authorization: one"]);
               CallGetResource Background "svcA" true false;
               CallGetResource Background "svcA" true false] s3)
    as (Hwf & Htidy & _); [vm_compute; reflexivity|].
  split; [exact Hwf|exact Htidy].
Defined.

Lemma scenario_good_after (b : bool) (ctx : Context) (target : string)
    (plainText isRestartConn : bool) (s : State) :
  good b s →
  good b (state_of (GetResource world ctx target plainText isRestartConn s) s).
Proof.
  intros Hg.
  destruct (GetResource world ctx target plainText isRestartConn s)
    as [[out s']|] eqn:HG; [|done].
  by apply (good_GetResource world b _ _ _ _ _ _ _ Hg HG).
Qed.

Lemma scenario_s_tls_good : good false s_tls.
Proof. by apply (good_frame false s1 _ []); try apply scenario_s1_good. Qed.

Lemma GetResource_outside_calls_witness :
  ∃ out s',
    GetResource world Background "down:1" false false s1 = Some (out, s') ∧
    extends (acquire_event world (client s1) false Background "down:1") s1 s'.
Proof.
  destruct (GetResource world Background "down:1" false false s1)
    as [[out s']|] eqn:HG; [|vm_compute in HG; discriminate].
  exists out, s'. split; [reflexivity|].
  exact (GetResource_outside_calls world Background "down:1" false false s1
           out s' HG).
Defined.

Lemma credential_failure_aborts_acquisition_witness :
  ∃ s',
    GetResource world Background "svcA" false true s_tls =
      Some ((None, Some "no such file"), s') ∧
    ConnStore.getConnection "svcA" (store s') = None.
Proof.
  destruct (credential_failure_aborts_acquisition world Background "svcA" true
              s_tls "no such file" (proj1 scenario_s_tls_good))
    as (s' & HG & _ & Hnone); [vm_compute; reflexivity ..|].
  exists s'. split; [exact HG|exact Hnone].
Defined.

Lemma GetResource_leaves_other_endpoints_witness :
  ∃ out s' res',
    GetResource world Background "svcB" true false s1 = Some (out, s') ∧
    ConnStore.conn (store s') !! "svcA" = ConnStore.conn (store s1) !! "svcA" ∧
    heap s' !! 1%positive = Some res' ∧
    Resource.clientConn res' = Some 1%nat ∧
    Resource.md res' = Some ["authorization: one"].
Proof.
  destruct (GetResource world Background "svcB" true false s1)
    as [[out s']|] eqn:HG; [|vm_compute in HG; discriminate].
  destruct (GetResource_leaves_other_endpoints world Background "svcB" true
              false s1 out s' HG)
    as (Hother & Hres & _); [discriminate|].
  destruct (Hres 1%positive res1) as (res' & Hr & Hcc & Hmd & _);
    [vm_compute; reflexivity|vm_compute; discriminate|].
  exists out, s', res'. split; [reflexivity|].
  split; [apply Hother; discriminate|].
  split; [exact Hr|]. split; [exact Hcc|exact Hmd].
Defined.

Lemma reacquiring_all_drops_every_endpoint_witness :
  ConnStore.getConnection "svcA" (store s_all) = Some 1%positive ∧
  ∃ out s',
    GetResource world Background "all" true true s_all = Some (out, s') ∧
    ConnStore.getConnection "svcA" (store s') = None.
Proof.
  split; [vm_compute; reflexivity|].
  destruct (reacquiring_all_drops_every_endpoint world Background true true
              s_all)
    as (out & s' & HG & Hdrop).
  - exact (proj1 (scenario_good_after false Background "all" true false s1
                    scenario_s1_good)).
  - vm_compute. eexists. reflexivity.
  - vm_compute. reflexivity.
  - exists out, s'. split; [exact HG|]. apply Hdrop. discriminate.
Defined.

Lemma GetResource_outcome_witness :
  ∃ r res s',
    GetResource world Background "svcA" true false s_reflect =
      Some ((Some r, None), s') ∧
    heap s' !! r = Some res ∧
    elems (Resource.headers res) =
      ["authorization: two"; "x-trace: 1"; "x-reflect: 1"].
Proof.
  destruct (GetResource_outcome world Background "svcA" true false s_reflect
              (proj1 scenario_s1_good))
    as (out & s' & HG & [(r & res & Hout & _ & Hr & _ & Hh)|
                         (err & Hout & _)]).
  - exists r, res, s'. rewrite Hout in HG.
    split; [exact HG|]. split; [exact Hr|].
    rewrite Hh. vm_compute. reflexivity.
  - rewrite Hout in HG. vm_compute in HG. discriminate.
Defined.


Lemma persistence_failure_returns_resource_and_error_witness :
  ∃ s2,
    GetResourceWithProto world Background "svcA" true false bad_proto s0 =
      Some ((Some 1%positive, Some "cannot write"), s2) ∧
    ConnStore.getConnection "svcA" (store s2) = Some 1%positive.
Proof.
  destruct (persistence_failure_returns_resource_and_error world Background
              "svcA" true false bad_proto s0 1%positive s1 res1
              "cannot write")
    as (s2 & HG & Hc & _).
  - vm_compute. reflexivity.
  - vm_compute. reflexivity.
  - discriminate.
  - vm_compute. reflexivity.
  - exists s2. split; [exact HG|exact Hc].
Defined.

Lemma GetResourceWithProto_outcome_witness :
  ∃ out s',
    GetResourceWithProto world Background "svcA" true false one_proto s1 =
      Some (out, s').
Proof.
  destruct (GetResourceWithProto_outcome world Background "svcA" true false
              one_proto s1 (proj1 scenario_s1_good))
    as (out & s' & HG & _).
  exists out, s'. exact HG.
Defined.

Lemma Invoke_reuses_cached_connection_witness :
  ∃ out s2,
    Invoke world Background "svcA" "pkg.Greeter" "Hello" "{}" s1 =
      Some (out, s2) ∧
    store s2 = store s1.
Proof.
  destruct (Invoke_reuses_cached_connection world Background Background
              "svcA" "pkg.Greeter" "Hello" "{}" true false s0 1%positive s1
              res1)
    as (out & s2 & HI & _ & Hst & _); [vm_compute; reflexivity ..|].
  exists out, s2. split; [exact HI|exact Hst].
Defined.

Lemma NewClient_durations_in_range_witness :
  Client.maxLifeConn (client (NewClient env_5_2)) = 300000000000 ∧
  ConnStore.gc (store (NewClient env_5_2)) = Some 2000000000.
Proof.
  destruct (NewClient_durations_in_range env_5_2)
    as (Hml & _ & Hgc & _);
    [split; [reflexivity|intros Hc; vm_compute in Hc; discriminate] ..|].
  split; [exact Hml|exact Hgc].
Defined.

End ScenarioRuns.
